(** * DI-engine league coordinator: a shallow embedding and its properties

    Source: [ding/framework/middleware/league_coordinator.py], class
    [LeagueCoordinator].  The coordinator is an event handler object: it
    owns a handful of counters, a table of running jobs and a reference to
    the league, and reacts to four kinds of events.

    Modelling conventions.
    - Python [int] is [Z]; [%] on ints is [Z.modulo] (both follow the sign
      of the divisor) with [ZeroDivisionError] written out.
    - Readings of [time()] and every quantity derived from them (Python
      [float]) are exact rationals [Q]; rounding is outside the model, and
      an attribute that starts as the int [0] and then accumulates floats
      is a [Q] from the start.  A division raises [ZeroDivisionError]
      exactly when its divisor is zero, as Python's does.  The concrete
      runs of the last part use readings on which binary64 arithmetic is
      exact.
    - [time()] is an oracle: the world holds the sequence of readings,
      [clock], and the number of calls made so far.
    - [None]-initialised attributes are [option]s.
    - Handlers live in a state-and-exception monad over the coordinator
      object and the world it talks to (clock, event bus, metrics writer,
      log).  A raised exception keeps every mutation made before it.
    - The league, the job and the player meta are collaborators declared
      outside this file ([ding.league]); the league is an interface here
      (a type class), jobs and metas are records with the attributes the
      coordinator touches. *)

From Stdlib Require Import ZArith QArith Qround Lqa.
From stdpp Require Import base gmap strings list.

Local Open Scope Z_scope.
#[local] Set Warnings "-clear-no-such-hyp".

(** * Part I: the coordinator *)

(** ** Collaborator data *)

(** Modelled from the spec: a player meta identifies a trained policy
    version (player id, checkpoint reference, training step); the class
    itself is [ding.league.player.PlayerMeta]. *)
Record PlayerMeta := mkPlayerMeta {
  player_id : string;
  checkpoint : string;
  total_agent_step : Z
}.

(** Modelled from the spec: a job carries its launching player, a
    league-defined payload, its sequence number, the evaluation flag and
    (once dispatched) the actor it was given to; the class itself is
    [ding.league.v2.base_league.Job]. *)
Record Job := mkJob {
  launch_player : string;
  players : list PlayerMeta;
  job_no : Z;
  is_eval : bool;
  actor_id : option string
}.

Definition set_job_no (n : Z) (j : Job) : Job :=
  mkJob (launch_player j) (players j) n (is_eval j) (actor_id j).
Definition set_is_eval (b : bool) (j : Job) : Job :=
  mkJob (launch_player j) (players j) (job_no j) b (actor_id j).
Definition set_actor_id (a : string) (j : Job) : Job :=
  mkJob (launch_player j) (players j) (job_no j) (is_eval j) (Some a).

(** The league interface the coordinator consumes
    ([ding.league.v2.BaseLeague]).  Every method may change the league,
    so each one returns the league it leaves behind.  [get_job_info]
    creates the job it returns (the specification: "created by League
    Model on request"), so a job is a value here and no two dispatches
    share one. *)
Class BaseLeague (L : Type) := {
  active_players_ids : L -> list string;
  get_job_info : L -> string -> Job * L;
  update_active_player : L -> PlayerMeta -> L;
  create_historical_player : L -> PlayerMeta -> L;
  update_payoff : L -> Job -> L
}.

(** The payload of [ACTOR_SEND_DATA]: the coordinator only iterates over
    it, it never looks inside a trajectory. *)
Definition Trajectory := unit.
Record EnvTrajectories := mkEnvTrajectories { trajectories : list Trajectory }.
Record ActorData := mkActorData { train_data : list EnvTrajectories }.

(** ** The world around the coordinator *)

Inductive PyExc := ZeroDivisionError | TypeError | IndexError.

Inductive outcome (A : Type) :=
| Return (a : A)
| Raise (e : PyExc).
Arguments Return {A} a.
Arguments Raise {A} e.

(** [task.emit(EventEnum.COORDINATOR_DISPATCH_ACTOR_JOB.format(actor_id=..), job)] *)
Inductive Emitted :=
| COORDINATOR_DISPATCH_ACTOR_JOB (actor : string) (job : Job).

(** [writer.add_scalar(tag, scalar_value, global_step)] *)
Record Scalar := mkScalar {
  tag : string;
  scalar_value : Q;
  global_step : Q
}.

(** The [logging.info] lines, by the values they format. *)
Inductive LogRecord :=
| LogGreeting (actor : string)
| LogTraj (current_traj_num : Z) (current_speed total_speed : Q)
| LogJob (player : string) (total_recv : Z) (speed : Q).

(** [clock n] is what the [n]-th call of [time()] returns. *)
Record World := mkWorld {
  clock : nat -> Q;
  time_calls : nat;
  emitted : list Emitted;
  scalars : list Scalar;
  info : list LogRecord
}.

Definition tick (w : World) : World :=
  mkWorld (clock w) (S (time_calls w)) (emitted w) (scalars w) (info w).
Definition push_emitted (e : Emitted) (w : World) : World :=
  mkWorld (clock w) (time_calls w) (emitted w ++ [e]) (scalars w) (info w).
Definition push_scalar (x : Scalar) (w : World) : World :=
  mkWorld (clock w) (time_calls w) (emitted w) (scalars w ++ [x]) (info w).
Definition push_info (r : LogRecord) (w : World) : World :=
  mkWorld (clock w) (time_calls w) (emitted w) (scalars w) (info w ++ [r]).

(** ** The handler monad: state and exceptions

    A raised exception stops the handler and keeps the state reached. *)

Definition M (S A : Type) : Type := S -> outcome A * S.

Definition ret {S A} (a : A) : M S A := fun s => (Return a, s).
Definition raise {S A} (e : PyExc) : M S A := fun s => (Raise e, s).
Definition bind {S A B} (m : M S A) (k : A -> M S B) : M S B :=
  fun s => match m s with
           | (Return a, s') => k a s'
           | (Raise e, s') => (Raise e, s')
           end.

Notation "x <- c ;; k" := (bind c (fun x => k))
  (at level 100, c at next level, right associativity).
Notation "c ;; k" := (bind c (fun _ => k))
  (at level 100, right associativity).

(** [for x in xs: body], threading the loop's local variable *)
Fixpoint for_each {S A B} (xs : list A) (acc : B) (body : A -> B -> M S B) : M S B :=
  match xs with
  | [] => ret acc
  | x :: xs' => acc' <- body x acc ;; for_each xs' acc' body
  end.

(** [a % b] on ints *)
Definition py_mod {S} (a b : Z) : M S Z :=
  if b =? 0 then raise ZeroDivisionError else ret (a `mod` b).

(** [a / b] with a float on either side *)
Definition py_truediv {S} (a b : Q) : M S Q :=
  if Qeq_bool b 0 then raise ZeroDivisionError else ret (a / b)%Q.

(** [l[i]] on a list, negative indices counting from the end *)
Definition py_getitem {S A} (l : list A) (i : Z) : M S A :=
  let n := Z.of_nat (length l) in
  let i' := if i <? 0 then i + n else i in
  if (i' <? 0) || (n <=? i') then raise IndexError
  else match l !! Z.to_nat i' with
       | Some x => ret x
       | None => raise IndexError
       end.

(** ** The coordinator object *)

Section Coordinator.
Context {L : Type} `{BaseLeague L}.

Record LeagueCoordinator := mkLeagueCoordinator {
  league : L;
  _lock : bool;
  _total_send_jobs : Z;
  _total_recv_jobs : Z;
  _eval_frequency : Z;
  _running_jobs : gmap string Job;
  _last_collect_time : option Q;
  _total_collect_time : option Q;
  _traj_num : Z;
  _last_get_data_time : option Q;
  _total_get_data_time : Q;
  _pre_collect_finished : bool
}.

Definition set_league (v : L) (c : LeagueCoordinator) :=
  mkLeagueCoordinator v (_lock c) (_total_send_jobs c) (_total_recv_jobs c)
    (_eval_frequency c) (_running_jobs c) (_last_collect_time c)
    (_total_collect_time c) (_traj_num c) (_last_get_data_time c)
    (_total_get_data_time c) (_pre_collect_finished c).
Definition set_lock (v : bool) (c : LeagueCoordinator) :=
  mkLeagueCoordinator (league c) v (_total_send_jobs c) (_total_recv_jobs c)
    (_eval_frequency c) (_running_jobs c) (_last_collect_time c)
    (_total_collect_time c) (_traj_num c) (_last_get_data_time c)
    (_total_get_data_time c) (_pre_collect_finished c).
Definition set_total_send_jobs (v : Z) (c : LeagueCoordinator) :=
  mkLeagueCoordinator (league c) (_lock c) v (_total_recv_jobs c)
    (_eval_frequency c) (_running_jobs c) (_last_collect_time c)
    (_total_collect_time c) (_traj_num c) (_last_get_data_time c)
    (_total_get_data_time c) (_pre_collect_finished c).
Definition set_total_recv_jobs (v : Z) (c : LeagueCoordinator) :=
  mkLeagueCoordinator (league c) (_lock c) (_total_send_jobs c) v
    (_eval_frequency c) (_running_jobs c) (_last_collect_time c)
    (_total_collect_time c) (_traj_num c) (_last_get_data_time c)
    (_total_get_data_time c) (_pre_collect_finished c).
Definition set_running_jobs (v : gmap string Job) (c : LeagueCoordinator) :=
  mkLeagueCoordinator (league c) (_lock c) (_total_send_jobs c)
    (_total_recv_jobs c) (_eval_frequency c) v (_last_collect_time c)
    (_total_collect_time c) (_traj_num c) (_last_get_data_time c)
    (_total_get_data_time c) (_pre_collect_finished c).
Definition set_last_collect_time (v : option Q) (c : LeagueCoordinator) :=
  mkLeagueCoordinator (league c) (_lock c) (_total_send_jobs c)
    (_total_recv_jobs c) (_eval_frequency c) (_running_jobs c) v
    (_total_collect_time c) (_traj_num c) (_last_get_data_time c)
    (_total_get_data_time c) (_pre_collect_finished c).
Definition set_total_collect_time (v : option Q) (c : LeagueCoordinator) :=
  mkLeagueCoordinator (league c) (_lock c) (_total_send_jobs c)
    (_total_recv_jobs c) (_eval_frequency c) (_running_jobs c)
    (_last_collect_time c) v (_traj_num c) (_last_get_data_time c)
    (_total_get_data_time c) (_pre_collect_finished c).
Definition set_traj_num (v : Z) (c : LeagueCoordinator) :=
  mkLeagueCoordinator (league c) (_lock c) (_total_send_jobs c)
    (_total_recv_jobs c) (_eval_frequency c) (_running_jobs c)
    (_last_collect_time c) (_total_collect_time c) v (_last_get_data_time c)
    (_total_get_data_time c) (_pre_collect_finished c).
Definition set_last_get_data_time (v : option Q) (c : LeagueCoordinator) :=
  mkLeagueCoordinator (league c) (_lock c) (_total_send_jobs c)
    (_total_recv_jobs c) (_eval_frequency c) (_running_jobs c)
    (_last_collect_time c) (_total_collect_time c) (_traj_num c) v
    (_total_get_data_time c) (_pre_collect_finished c).
Definition set_total_get_data_time (v : Q) (c : LeagueCoordinator) :=
  mkLeagueCoordinator (league c) (_lock c) (_total_send_jobs c)
    (_total_recv_jobs c) (_eval_frequency c) (_running_jobs c)
    (_last_collect_time c) (_total_collect_time c) (_traj_num c)
    (_last_get_data_time c) v (_pre_collect_finished c).
Definition set_pre_collect_finished (v : bool) (c : LeagueCoordinator) :=
  mkLeagueCoordinator (league c) (_lock c) (_total_send_jobs c)
    (_total_recv_jobs c) (_eval_frequency c) (_running_jobs c)
    (_last_collect_time c) (_total_collect_time c) (_traj_num c)
    (_last_get_data_time c) (_total_get_data_time c) v.

(** [LeagueCoordinator.__init__(cfg, league)]; [cfg] is not read. *)
Definition __init__ (league0 : L) : LeagueCoordinator :=
  {| league := league0;
     _lock := false;
     _total_send_jobs := 0;
     _total_recv_jobs := 0;
     _eval_frequency := 10;
     _running_jobs := ∅;
     _last_collect_time := None;
     _total_collect_time := None;
     _traj_num := 0;
     _last_get_data_time := None;
     _total_get_data_time := 0%Q;
     _pre_collect_finished := false |}.

(** ** The handlers' primitives *)

Definition Sys : Type := LeagueCoordinator * World.

(** [self.attr] and [self.attr = v] *)
Definition attr {A} (f : LeagueCoordinator -> A) : M Sys A :=
  fun s => (Return (f s.1), s).
Definition assign (f : LeagueCoordinator -> LeagueCoordinator) : M Sys unit :=
  fun s => (Return tt, (f s.1, s.2)).
Definition effect (f : World -> World) : M Sys unit :=
  fun s => (Return tt, (s.1, f s.2)).

(** A method call on [self.league]: the league it leaves is stored back. *)
Definition league_call {A} (m : L -> A * L) : M Sys A :=
  fun s => let r := m (league s.1) in (Return r.1, (set_league r.2 s.1, s.2)).
Definition league_do (m : L -> L) : M Sys unit :=
  fun s => (Return tt, (set_league (m (league s.1)) s.1, s.2)).

(** [time()] *)
Definition time : M Sys Q :=
  fun s => (Return (clock s.2 (time_calls s.2)), (s.1, tick s.2)).

(** [with self._lock: body]: the lock is released however [body] ends.
    Handlers run one at a time here, so the lock is free on entry. *)
Definition with_lock {A} (body : M Sys A) : M Sys A :=
  fun s => let r := body (set_lock true s.1, s.2) in
           (r.1, (set_lock false r.2.1, r.2.2)).

(** ** The handlers *)

(** Lines 57-61 of [_count_data]: the two nested loops, returning the
    local [current_traj_num]. *)
Definition count_trajectories (data : ActorData) : M Sys Z :=
  for_each (train_data data) 0 (fun env_trajectories cur =>
    for_each (trajectories env_trajectories) cur (fun traj cur =>
      n <- attr _traj_num ;;
      assign (set_traj_num (n + 1)) ;;
      ret (cur + 1))).

Definition _count_data (data : ActorData) : M Sys unit :=
  last <- attr _last_get_data_time ;;
  match last with
  | None => t <- time ;; assign (set_last_get_data_time (Some t))
  | Some _ => ret tt
  end ;;
  total <- attr _total_get_data_time ;;
  finished <- attr _pre_collect_finished ;;
  (if Qle_bool (inject_Z (60 * 10)) total && negb finished
   then assign (set_pre_collect_finished true) ;;
        assign (set_total_get_data_time 0%Q)
   else ret tt) ;;
  finish_get_data_time <- time ;;
  last <- attr _last_get_data_time ;;
  match last with
  | None => raise TypeError
  | Some last =>
    let current_get_data_time := (finish_get_data_time - last)%Q in
    total <- attr _total_get_data_time ;;
    assign (set_total_get_data_time (total + current_get_data_time)%Q) ;;
    assign (set_last_get_data_time (Some finish_get_data_time)) ;;
    finished <- attr _pre_collect_finished ;;
    if finished then
      current_traj_num <- count_trajectories data ;;
      current_speed <- py_truediv (inject_Z current_traj_num) current_get_data_time ;;
      traj_num <- attr _traj_num ;;
      total <- attr _total_get_data_time ;;
      total_speed <- py_truediv (inject_Z traj_num) total ;;
      effect (push_info (LogTraj current_traj_num current_speed total_speed)) ;;
      current_speed <- py_truediv (inject_Z current_traj_num) current_get_data_time ;;
      total <- attr _total_get_data_time ;;
      effect (push_scalar
                (mkScalar "current_traj_speed-total_recv_trajs" current_speed total)) ;;
      traj_num <- attr _traj_num ;;
      total <- attr _total_get_data_time ;;
      total_speed <- py_truediv (inject_Z traj_num) total ;;
      total <- attr _total_get_data_time ;;
      effect (push_scalar
                (mkScalar "total_traj_speed-total_recv_trajs" total_speed total))
    else ret tt
  end.

Definition _on_actor_greeting (actor_id : string) : M Sys unit :=
  effect (push_info (LogGreeting actor_id)) ;;
  last <- attr _last_collect_time ;;
  match last with
  | None => t <- time ;; assign (set_last_collect_time (Some t))
  | Some _ => ret tt
  end ;;
  total <- attr _total_collect_time ;;
  match total with
  | None => assign (set_total_collect_time (Some 0%Q))
  | Some _ => ret tt
  end ;;
  job <- with_lock (
    ids <- attr (fun c => active_players_ids (league c)) ;;
    let player_num := Z.of_nat (length ids) in
    ids <- attr (fun c => active_players_ids (league c)) ;;
    n <- attr _total_send_jobs ;;
    i <- py_mod n player_num ;;
    player_id <- py_getitem ids i ;;
    job <- league_call (fun l => get_job_info l player_id) ;;
    n <- attr _total_send_jobs ;;
    let job := set_job_no n job in
    n <- attr _total_send_jobs ;;
    assign (set_total_send_jobs (n + 1)) ;;
    ret job) ;;
  freq <- attr _eval_frequency ;;
  job <- (if job_no job >? 0
          then r <- py_mod (job_no job) freq ;;
               ret (if r =? 0 then set_is_eval true job else job)
          else ret job) ;;
  let job := set_actor_id actor_id job in
  jobs <- attr _running_jobs ;;
  assign (set_running_jobs (<["actor_" +:+ actor_id := job]> jobs)) ;;
  effect (push_emitted (COORDINATOR_DISPATCH_ACTOR_JOB actor_id job)).

Definition _on_learner_meta (player_meta : PlayerMeta) : M Sys unit :=
  league_do (fun l => update_active_player l player_meta) ;;
  league_do (fun l => create_historical_player l player_meta).

Definition _on_actor_job (job : Job) : M Sys unit :=
  n <- attr _total_recv_jobs ;;
  assign (set_total_recv_jobs (n + 1)) ;;
  old_time <- attr _last_collect_time ;;
  t <- time ;;
  assign (set_last_collect_time (Some t)) ;;
  total <- attr _total_collect_time ;;
  last <- attr _last_collect_time ;;
  match total, last, old_time with
  | Some total, Some last, Some old_time =>
    assign (set_total_collect_time (Some (total + (last - old_time))%Q)) ;;
    total <- attr _total_collect_time ;;
    n <- attr _total_recv_jobs ;;
    match total with
    | None => raise TypeError
    | Some total =>
      speed <- py_truediv total (inject_Z n) ;;
      effect (push_info (LogJob (launch_player job) n speed)) ;;
      speed <- py_truediv total (inject_Z n) ;;
      effect (push_scalar
                (mkScalar "coordinator_collect_job_speed-total_recv_jobs"
                          speed (inject_Z n))) ;;
      league_do (fun l => update_payoff l job)
    end
  | _, _, _ => raise TypeError
  end.

(** [__call__(ctx)]: [sleep(1)] and a rate-limited status line; no
    attribute is written. *)
Definition __call__ : M Sys unit := ret tt.

(** * Part II: closed forms, runs and what they let one observe *)

(** ** The handlers as state transformers

    Closed forms of what each handler leaves behind; the lemmas of the
    third part show that the handlers compute exactly these. *)

(** The eval-flag rule of [_on_actor_greeting], as one expression. *)
Definition mark_eval (freq : Z) (job : Job) : Job :=
  if (job_no job >? 0) && (job_no job `mod` freq =? 0)
  then set_is_eval true job else job.

(** The job the greeting of [a] dispatches when the league is asked for
    player [p]. *)
Definition dispatched_job (c : LeagueCoordinator) (a p : string) : Job :=
  set_actor_id a
    (mark_eval (_eval_frequency c)
       (set_job_no (_total_send_jobs c) (get_job_info (league c) p).1)).

(** A greeting that found no active player: the log line, the two lazy
    initialisations and the released lock are all it leaves. *)
Definition greeting_refused (c : LeagueCoordinator) (w : World) (a : string) : Sys :=
  ({| league := league c;
      _lock := false;
      _total_send_jobs := _total_send_jobs c;
      _total_recv_jobs := _total_recv_jobs c;
      _eval_frequency := _eval_frequency c;
      _running_jobs := _running_jobs c;
      _last_collect_time :=
        Some (default (clock w (time_calls w)) (_last_collect_time c));
      _total_collect_time := Some (default 0%Q (_total_collect_time c));
      _traj_num := _traj_num c;
      _last_get_data_time := _last_get_data_time c;
      _total_get_data_time := _total_get_data_time c;
      _pre_collect_finished := _pre_collect_finished c |},
   {| clock := clock w;
      time_calls := match _last_collect_time c with
                    | None => S (time_calls w)
                    | Some _ => time_calls w
                    end;
      emitted := emitted w;
      scalars := scalars w;
      info := info w ++ [LogGreeting a] |}).

Definition greeted (c : LeagueCoordinator) (w : World) (a p : string) : Sys :=
  ({| league := (get_job_info (league c) p).2;
      _lock := false;
      _total_send_jobs := _total_send_jobs c + 1;
      _total_recv_jobs := _total_recv_jobs c;
      _eval_frequency := _eval_frequency c;
      _running_jobs := <["actor_" +:+ a := dispatched_job c a p]> (_running_jobs c);
      _last_collect_time :=
        Some (default (clock w (time_calls w)) (_last_collect_time c));
      _total_collect_time := Some (default 0%Q (_total_collect_time c));
      _traj_num := _traj_num c;
      _last_get_data_time := _last_get_data_time c;
      _total_get_data_time := _total_get_data_time c;
      _pre_collect_finished := _pre_collect_finished c |},
   {| clock := clock w;
      time_calls := match _last_collect_time c with
                    | None => S (time_calls w)
                    | Some _ => time_calls w
                    end;
      emitted := emitted w ++ [COORDINATOR_DISPATCH_ACTOR_JOB a (dispatched_job c a p)];
      scalars := scalars w;
      info := info w ++ [LogGreeting a] |}).

(** A greeting stopped at line 87 by an evaluation frequency of zero: the
    job was numbered and counted, but is neither recorded nor emitted. *)
Definition greeting_faulted (c : LeagueCoordinator) (w : World) (a p : string) : Sys :=
  (set_running_jobs (_running_jobs c) (greeted c w a p).1,
   {| clock := clock w;
      time_calls := time_calls (greeted c w a p).2;
      emitted := emitted w;
      scalars := scalars w;
      info := info w ++ [LogGreeting a] |}).

(** Lines 102-104 of [_on_actor_job]: what is done before the
    accumulation can fail. *)
Definition job_received (c : LeagueCoordinator) (w : World) : Sys :=
  (set_last_collect_time (Some (clock w (time_calls w)))
     (set_total_recv_jobs (_total_recv_jobs c + 1) c),
   tick w).

(** The average [_on_actor_job] reports, from the accumulated time
    [total] and the reference [old] it found. *)
Definition collect_job_speed (c : LeagueCoordinator) (w : World) (total old : Q) : Q :=
  ((total + (clock w (time_calls w) - old)) / inject_Z (_total_recv_jobs c + 1))%Q.

(** Line 105: the gap is added to the accumulated time. *)
Definition job_accumulated (c : LeagueCoordinator) (w : World) (total old : Q) : Sys :=
  (set_total_collect_time
     (Some (total + (clock w (time_calls w) - old))%Q) (job_received c w).1,
   tick w).

Definition job_finished (c : LeagueCoordinator) (w : World) (job : Job)
    (total old : Q) : Sys :=
  let n := _total_recv_jobs c + 1 in
  let speed := collect_job_speed c w total old in
  (set_league (update_payoff (league c) job) (job_accumulated c w total old).1,
   push_scalar
     (mkScalar "coordinator_collect_job_speed-total_recv_jobs" speed (inject_Z n))
     (push_info (LogJob (launch_player job) n speed) (tick w))).

(** The number of trajectories of a batch. *)
Fixpoint traj_count (envs : list EnvTrajectories) : Z :=
  match envs with
  | [] => 0
  | e :: envs' => Z.of_nat (length (trajectories e)) + traj_count envs'
  end.

(** The test of line 47: the warm-up is over and was not yet seen over. *)
Definition warmup_ends (c : LeagueCoordinator) : bool :=
  Qle_bool (inject_Z (60 * 10)) (_total_get_data_time c)
  && negb (_pre_collect_finished c).

(** The world after the lazy initialisation of lines 44-45. *)
Definition data_world (c : LeagueCoordinator) (w : World) : World :=
  match _last_get_data_time c with None => tick w | Some _ => w end.

(** [current_get_data_time] of line 52. *)
Definition data_elapsed (c : LeagueCoordinator) (w : World) : Q :=
  (clock w (time_calls (data_world c w))
   - default (clock w (time_calls w)) (_last_get_data_time c))%Q.

(** Lines 44-54: timestamps, warm-up flag and accumulated time. *)
Definition data_timed (c : LeagueCoordinator) (w : World) : Sys :=
  ({| league := league c;
      _lock := _lock c;
      _total_send_jobs := _total_send_jobs c;
      _total_recv_jobs := _total_recv_jobs c;
      _eval_frequency := _eval_frequency c;
      _running_jobs := _running_jobs c;
      _last_collect_time := _last_collect_time c;
      _total_collect_time := _total_collect_time c;
      _traj_num := _traj_num c;
      _last_get_data_time := Some (clock w (time_calls (data_world c w)));
      _total_get_data_time :=
        ((if warmup_ends c then 0 else _total_get_data_time c)
         + data_elapsed c w)%Q;
      _pre_collect_finished :=
        if warmup_ends c then true else _pre_collect_finished c |},
   tick (data_world c w)).

(** Lines 57-61: the trajectories of the batch are counted. *)
Definition data_counted (c : LeagueCoordinator) (w : World) (data : ActorData) : Sys :=
  (set_traj_num (_traj_num c + traj_count (train_data data)) (data_timed c w).1,
   (data_timed c w).2).

(** Lines 62-73: the log line and the two samples. *)
Definition data_published (c : LeagueCoordinator) (w : World) (data : ActorData) : Sys :=
  let s := data_counted c w data in
  let current_traj_num := traj_count (train_data data) in
  let current_speed := (inject_Z current_traj_num / data_elapsed c w)%Q in
  let total_speed :=
    (inject_Z (_traj_num s.1) / _total_get_data_time s.1)%Q in
  (s.1,
   push_scalar
     (mkScalar "total_traj_speed-total_recv_trajs" total_speed
        (_total_get_data_time s.1))
     (push_scalar
        (mkScalar "current_traj_speed-total_recv_trajs" current_speed
           (_total_get_data_time s.1))
        (push_info (LogTraj current_traj_num current_speed total_speed) s.2))).

Definition counted (c : LeagueCoordinator) (w : World) (data : ActorData)
    : outcome unit * Sys :=
  if _pre_collect_finished (data_timed c w).1 then
    if Qeq_bool (data_elapsed c w) 0
       || Qeq_bool (_total_get_data_time (data_timed c w).1) 0
    then (Raise ZeroDivisionError, data_counted c w data)
    else (Return tt, data_published c w data)
  else (Return tt, data_timed c w).

(** ** Event delivery *)

Inductive Event :=
| ACTOR_GREETING (actor_id : string)
| LEARNER_SEND_META (player_meta : PlayerMeta)
| ACTOR_FINISH_JOB (job : Job)
| ACTOR_SEND_DATA (data : ActorData)
| TICK.

(** The subscriptions of [__init__] ([task.on]), and the middleware call. *)
Definition handle (ev : Event) : M Sys unit :=
  match ev with
  | ACTOR_GREETING a => _on_actor_greeting a
  | LEARNER_SEND_META m => _on_learner_meta m
  | ACTOR_FINISH_JOB j => _on_actor_job j
  | ACTOR_SEND_DATA d => _count_data d
  | TICK => __call__
  end.

(** One delivery; whatever the handler's outcome, the object lives on. *)
Definition step (s : Sys) (ev : Event) : Sys := (handle ev s).2.

Definition run (evs : list Event) (s : Sys) : Sys := fold_left step evs s.

Definition start (league0 : L) (clk : nat -> Q) : Sys :=
  (__init__ league0, mkWorld clk 0%nat [] [] []).

(** The cases of one delivery, each with the state it leaves. *)
Inductive handled : Sys -> Event -> outcome unit -> Sys -> Prop :=
| greeting_refuses c w a :
    active_players_ids (league c) = [] ->
    handled (c, w) (ACTOR_GREETING a) (Raise ZeroDivisionError)
      (greeting_refused c w a)
| greeting_dispatches c w a p :
    active_players_ids (league c)
      !! Z.to_nat (_total_send_jobs c
                   `mod` Z.of_nat (length (active_players_ids (league c))))
    = Some p ->
    _total_send_jobs c <= 0 \/ _eval_frequency c <> 0 ->
    handled (c, w) (ACTOR_GREETING a) (Return tt) (greeted c w a p)
| greeting_faults c w a p :
    active_players_ids (league c)
      !! Z.to_nat (_total_send_jobs c
                   `mod` Z.of_nat (length (active_players_ids (league c))))
    = Some p ->
    0 < _total_send_jobs c -> _eval_frequency c = 0 ->
    handled (c, w) (ACTOR_GREETING a) (Raise ZeroDivisionError)
      (greeting_faulted c w a p)
| meta_forwarded c w m :
    handled (c, w) (LEARNER_SEND_META m) (Return tt)
      (set_league
         (create_historical_player (update_active_player (league c) m) m) c,
       w)
| job_refuses c w j :
    _total_collect_time c = None \/ _last_collect_time c = None ->
    handled (c, w) (ACTOR_FINISH_JOB j) (Raise TypeError) (job_received c w)
| job_finishes c w j total old :
    _total_collect_time c = Some total ->
    _last_collect_time c = Some old ->
    _total_recv_jobs c + 1 <> 0 ->
    handled (c, w) (ACTOR_FINISH_JOB j) (Return tt) (job_finished c w j total old)
| job_faults c w j total old :
    _total_collect_time c = Some total ->
    _last_collect_time c = Some old ->
    _total_recv_jobs c + 1 = 0 ->
    handled (c, w) (ACTOR_FINISH_JOB j) (Raise ZeroDivisionError)
      (job_accumulated c w total old)
| data_counts c w d :
    handled (c, w) (ACTOR_SEND_DATA d) (counted c w d).1 (counted c w d).2
| tick_passes c w :
    handled (c, w) TICK (Return tt) (c, w).

End Coordinator.

Arguments LeagueCoordinator L : clear implicits.
Arguments Sys L : clear implicits.

(** ** What a run lets one observe *)

Definition job_of (e : Emitted) : Job :=
  match e with COORDINATOR_DISPATCH_ACTOR_JOB _ j => j end.
Definition actor_of (e : Emitted) : string :=
  match e with COORDINATOR_DISPATCH_ACTOR_JOB a _ => a end.

(** The job most recently dispatched to actor [a], if any. *)
Fixpoint last_dispatch (a : string) (es : list Emitted) : option Job :=
  match es with
  | [] => None
  | e :: es' =>
    match last_dispatch a es' with
    | Some j => Some j
    | None => if decide (actor_of e = a) then Some (job_of e) else None
    end
  end.

(** The two samples of the throughput tracker, and the one of the
    job-completion handler. *)
Definition is_rate_scalar (x : Scalar) : bool :=
  bool_decide (tag x = "current_traj_speed-total_recv_trajs")
  || bool_decide (tag x = "total_traj_speed-total_recv_trajs").
Definition rate_scalars (w : World) : list Scalar :=
  List.filter is_rate_scalar (scalars w).
Definition collect_scalars (w : World) : list Scalar :=
  List.filter (fun x => negb (is_rate_scalar x)) (scalars w).

(** [a <= b] on attributes that start as [None]. *)
Definition opt_le (a b : option Q) : Prop :=
  match a, b with
  | None, _ => True
  | Some x, Some y => (x <= y)%Q
  | Some _, None => False
  end.

(** The time accumulated by the completion handler: from [total], with
    the reference at [ref], over the completions at the times [cs]. *)
Fixpoint accumulate_gaps (total ref : Q) (cs : list Q) : Q :=
  match cs with
  | [] => total
  | c :: cs' => accumulate_gaps (total + (c - ref)) c cs'
  end.

(** The gaps between consecutive completions only. *)
Fixpoint inter_completion_gaps (cs : list Q) : Q :=
  match cs with
  | c1 :: ((c2 :: _) as cs') => ((c2 - c1) + inter_completion_gaps cs')%Q
  | _ => 0%Q
  end.

(** The samples the completion handler publishes for the completions at
    [cs], from [total] accumulated, the reference at [ref] and [k] jobs
    received. *)
Fixpoint reported_speeds (total ref : Q) (k : Z) (cs : list Q) : list Scalar :=
  match cs with
  | [] => []
  | c :: cs' =>
    mkScalar "coordinator_collect_job_speed-total_recv_jobs"
      ((total + (c - ref)) / inject_Z (k + 1))%Q (inject_Z (k + 1))
    :: reported_speeds (total + (c - ref))%Q c (k + 1) cs'
  end.

Definition not_greeting (ev : Event) : Prop :=
  match ev with ACTOR_GREETING _ => False | _ => True end.
Definition not_completion (ev : Event) : Prop :=
  match ev with ACTOR_FINISH_JOB _ => False | _ => True end.

(** The actors that greet in a run, in order. *)
Definition greetings_of (evs : list Event) : list string :=
  omap (λ ev, match ev with ACTOR_GREETING a => Some a | _ => None end) evs.

Section Observations.
Context {L : Type} `{BaseLeague L}.

(** The round-robin rule in the words of the specification, to compare
    the handler with: the [k]-th greeting gets sequence number [k] and
    the job of the player at index [k mod P] of the active players [ps],
    in list order. *)
Fixpoint round_robin (ps : list string) (freq : Z) (l : L) (k : nat)
    (actors : list string) : list Emitted :=
  match actors with
  | [] => []
  | a :: rest =>
    match ps !! (k `mod` length ps)%nat with
    | Some p =>
      COORDINATOR_DISPATCH_ACTOR_JOB a
        (set_actor_id a
           (mark_eval freq (set_job_no (Z.of_nat k) (get_job_info l p).1)))
      :: round_robin ps freq (get_job_info l p).2 (S k) rest
    | None => []
    end
  end.

(** How often the warm-up flag goes from [False] to [True] in a run. *)
Fixpoint warmup_transitions (evs : list Event) (s : Sys L) : nat :=
  match evs with
  | [] => 0
  | ev :: evs' =>
    ((if negb (_pre_collect_finished s.1)
         && _pre_collect_finished (step s ev).1 then 1 else 0)
     + warmup_transitions evs' (step s ev))%nat
  end.

(** The clock readings at which the completions of a run are handled. *)
Fixpoint completion_times (evs : list Event) (s : Sys L) : list Q :=
  match evs with
  | [] => []
  | ev :: evs' =>
    match ev with
    | ACTOR_FINISH_JOB _ => [clock s.2 (time_calls s.2)]
    | _ => []
    end ++ completion_times evs' (step s ev)
  end.

(** The table and the dispatches seen on the bus agree. *)
Definition table_agrees (s : Sys L) : Prop :=
  (∀ a, _running_jobs s.1 !! ("actor_" +:+ a) = last_dispatch a (emitted s.2))
  ∧ (∀ k, is_Some (_running_jobs s.1 !! k) → ∃ a, k = "actor_" +:+ a).

(** The time stamps the coordinator keeps were read from the clock [clk]. *)
Definition timely (clk : nat → Q) (s : Sys L) : Prop :=
  clock s.2 = clk
  ∧ (∀ t, _last_collect_time s.1 = Some t → (t <= clk (time_calls s.2))%Q)
  ∧ (∀ t, _last_get_data_time s.1 = Some t → (t <= clk (time_calls s.2))%Q).

(** No method of the league changes the list of active players. *)
Definition fixed_players : Prop :=
  (∀ (l : L) p, active_players_ids (get_job_info l p).2 = active_players_ids l)
  ∧ (∀ (l : L) m, active_players_ids (update_active_player l m) = active_players_ids l)
  ∧ (∀ (l : L) m, active_players_ids (create_historical_player l m) = active_players_ids l)
  ∧ (∀ (l : L) j, active_players_ids (update_payoff l j) = active_players_ids l).

End Observations.

Arguments fixed_players L {_}.

(** ** More observations of a run *)

(** Readings that binary64 subtracts and adds without rounding: they are
    non-negative multiples, below 2^53, of one power of two.  Their
    differences and the sums of consecutive differences are multiples
    below 2^53 of the same power, hence floats.  The readings [time()]
    gives in one run are of this kind (they lie in one binade). *)
Definition binary_grid (clk : nat → Q) : Prop :=
  ∃ k : nat, (k ≤ 1000)%nat
    ∧ ∀ n, ∃ z : Z, 0 ≤ z < 2 ^ 53
                    ∧ (clk n == inject_Z z / inject_Z (2 ^ Z.of_nat k))%Q.

(** The completions and the batches delivered in a run, in order. *)
Definition completions_of (evs : list Event) : list Job :=
  omap (λ ev, match ev with ACTOR_FINISH_JOB j => Some j | _ => None end) evs.
Definition batches_of (evs : list Event) : list ActorData :=
  omap (λ ev, match ev with ACTOR_SEND_DATA d => Some d | _ => None end) evs.

Definition not_data (ev : Event) : Prop :=
  match ev with ACTOR_SEND_DATA _ => False | _ => True end.

(** The trajectories of a list of batches. *)
Fixpoint batches_count (ds : list ActorData) : Z :=
  match ds with
  | [] => 0
  | d :: ds' => traj_count (train_data d) + batches_count ds'
  end.

(** The sample a completion publishes. *)
Definition is_collect_sample (x : Scalar) (n : Z) : Prop :=
  tag x = "coordinator_collect_job_speed-total_recv_jobs"
  ∧ global_step x = inject_Z n.

Section MoreObservations.
Context {L : Type} `{BaseLeague L}.

(** The reading of the clock that the first data-arrived call of a run
    takes as its reference (line 45). *)
Fixpoint data_origin (evs : list Event) (s : Sys L) : option Q :=
  match evs with
  | [] => None
  | ACTOR_SEND_DATA _ :: _ => Some (clock s.2 (time_calls s.2))
  | ev :: evs' => data_origin evs' (step s ev)
  end.

(** What the dispatcher has logged and stored is consistent. *)
Definition dispatch_log_ok (s : Sys L) : Prop :=
  _eval_frequency s.1 = 10
  ∧ _total_send_jobs s.1 = Z.of_nat (length (emitted s.2))
  ∧ (job_no ∘ job_of) <$> emitted s.2
    = Z.of_nat <$> seq 0 (length (emitted s.2))
  ∧ Forall (λ e, actor_id (job_of e) = Some (actor_of e)) (emitted s.2).

(** The completion handler has its time reference and its accumulator. *)
Definition collect_ready (s : Sys L) : Prop :=
  is_Some (_last_collect_time s.1) ∧ is_Some (_total_collect_time s.1)
  ∧ 0 ≤ _total_recv_jobs s.1.

(** The state of the throughput tracker. *)
Definition tracker_state (s : Sys L) : Z * option Q * Q * bool * list Scalar :=
  (_traj_num s.1, _last_get_data_time s.1, _total_get_data_time s.1,
   _pre_collect_finished s.1, rate_scalars s.2).

(** The state of the dispatcher. *)
Definition dispatcher_state (s : Sys L)
    : Z * Z * gmap string Job * bool * list Emitted :=
  (_total_send_jobs s.1, _eval_frequency s.1, _running_jobs s.1, _lock s.1,
   emitted s.2).

(** The state of the completion statistics. *)
Definition collect_state (s : Sys L) : Z * option Q * option Q * list Scalar :=
  (_total_recv_jobs s.1, _last_collect_time s.1, _total_collect_time s.1,
   collect_scalars s.2).

(** The data time stamp was read strictly before the next reading of
    the clock [clk], and the accumulated data time is not negative. *)
Definition ticking (clk : nat → Q) (s : Sys L) : Prop :=
  clock s.2 = clk
  ∧ (∀ t, _last_get_data_time s.1 = Some t → (t < clk (time_calls s.2))%Q)
  ∧ (0 <= _total_get_data_time s.1)%Q.

(** No counter and no accumulated time is negative, and every sample
    published so far is a rate at a positive step. *)
Definition nonneg_state (s : Sys L) : Prop :=
  0 ≤ _traj_num s.1
  ∧ (0 <= _total_get_data_time s.1)%Q
  ∧ (∀ t, _total_collect_time s.1 = Some t → (0 <= t)%Q)
  ∧ 0 ≤ _total_recv_jobs s.1
  ∧ Forall (λ x, (0 <= scalar_value x)%Q ∧ (0 < global_step x)%Q) (scalars s.2).

End MoreObservations.

(** ** Concrete collaborators, for examples *)

(** A league that is its list of active players; a job carries its
    launching player only. *)
#[export] Instance list_league : BaseLeague (list string) := {|
  active_players_ids l := l;
  get_job_info l p := (mkJob p [] 0 false None, l);
  update_active_player l _ := l;
  create_historical_player l _ := l;
  update_payoff l _ := l
|}.

(** A clock that returns the readings [ts] in turn, then stays at [d]. *)
Definition readings (ts : list Q) (d : Q) : nat -> Q :=
  fun n => nth n ts d.

(** A batch of [n] trajectories in one environment group. *)
Definition batch (n : nat) : ActorData :=
  mkActorData [mkEnvTrajectories (replicate n tt)].

(** A coordinator whose first batch was handled from time 0 to time 600;
    the next reading of the clock will be [next]. *)
Definition warmed (next : Q) : Sys (list string) :=
  run [ACTOR_SEND_DATA (batch 3)]
      (start ["A"] (readings [0%Q; inject_Z 600; next] next)).

(** * The process-group helper

    Source: [ding/utils/pytorch_ddp_dist_helper.py], the functions that
    bring up [torch.distributed] for a training process, split the world
    into groups of ranks and scale a configuration to one process.

    Modelling conventions, besides those of the coordinator.
    - [os.environ] is a finite map from names to strings.
    - [torch.distributed] and [torch.cuda] are collaborators.  The process
      keeps the log of the calls this file makes to them
      ([init_process_group], [set_device], [new_group]); what they answer
      ([get_rank()], [get_world_size()], [torch.cuda.device_count()]) is an
      interface of the process.  [get_rank] and [get_world_size] wrap
      torch's calls with [error_wrapper] of [ding.utils.default_helper],
      which is not among the sources: the interface gives the wrapped
      answer.  The calls are taken to return.
    - A group handle is identified with the ranks it was created for.
    - [np.arange(n)] is the list [0 .. n-1]; [np.split(ary, sections)] with
      an int [sections] checks [len(ary) % sections] (a Python [%]), then
      that [sections] is positive, and cuts [ary] into [sections] slices of
      equal length.
    - The built-in [int] on a [str] is a parameter of the interface. *)
Module Helper.

Inductive PyExc :=
| AssertionError | RuntimeError | ValueError | ZeroDivisionError | IndexError
| AttributeError.

Inductive outcome (A : Type) :=
| Return (a : A)
| Raise (e : PyExc).
Arguments Return {A} a.
Arguments Raise {A} e.

(** A call to [torch.distributed] or [torch.cuda] *)
Inductive Call :=
| init_process_group (backend : string) (rank world_size : Z) (timeout : Z)
| set_device (device : Z)
| new_group (ranks : list Z).

(** What [dist.new_group] hands back. *)
Record Group := mkGroup { ranks : list Z }.

Record Process := mkProcess {
  environ : gmap string string;
  calls : list Call
}.

Definition set_environ (e : gmap string string) (p : Process) : Process :=
  {| environ := e; calls := calls p |}.
Definition push_call (c : Call) (p : Process) : Process :=
  {| environ := environ p; calls := calls p ++ [c] |}.

(** The answers of the collaborators, and the built-in [int]. *)
Class Runtime := {
  dist_rank : Process -> Z;
  dist_world_size : Process -> Z;
  cuda_device_count : Process -> Z;
  py_int : string -> option Z
}.

Definition M (A : Type) : Type := Process -> outcome A * Process.

Definition ret {A} (a : A) : M A := fun p => (Return a, p).
Definition raise {A} (e : PyExc) : M A := fun p => (Raise e, p).
Definition bind {A B} (m : M A) (k : A -> M B) : M B :=
  fun p => match m p with
           | (Return a, p') => k a p'
           | (Raise e, p') => (Raise e, p')
           end.

Declare Scope helper_scope.
Notation "x <- c ;; k" := (bind c (fun x => k))
  (at level 100, c at next level, right associativity) : helper_scope.
Notation "c ;; k" := (bind c (fun _ => k))
  (at level 100, right associativity) : helper_scope.
Local Open Scope helper_scope.

Definition gets {A} (f : Process -> A) : M A := fun p => (Return (f p), p).
Definition modify (f : Process -> Process) : M unit := fun p => (Return tt, f p).

(** [assert b] *)
Definition py_assert (b : bool) : M unit :=
  if b then ret tt else raise AssertionError.

(** [a % b] and [a // b] on ints *)
Definition py_mod (a b : Z) : M Z :=
  if b =? 0 then raise ZeroDivisionError else ret (a `mod` b).
Definition py_floordiv (a b : Z) : M Z :=
  if b =? 0 then raise ZeroDivisionError else ret (a `div` b).

(** [l[i]] on a list, negative indices counting from the end *)
Definition py_getitem {A} (l : list A) (i : Z) : M A :=
  let n := Z.of_nat (length l) in
  let i' := if i <? 0 then i + n else i in
  if (i' <? 0) || (n <=? i') then raise IndexError
  else match l !! Z.to_nat i' with
       | Some x => ret x
       | None => raise IndexError
       end.

(** [a or b] on an optional string: [None] and the empty string are
    false. *)
Definition py_or (a : option string) (b : string) : string :=
  match a with
  | Some s => if bool_decide (s = "") then b else s
  | None => b
  end.

(** [range(n)] *)
Definition py_range (n : Z) : list Z := Z.of_nat <$> seq 0 (Z.to_nat n).

(** [for x in xs: body], threading the loop's local variable *)
Fixpoint for_each {A B} (xs : list A) (acc : B) (body : A -> B -> M B) : M B :=
  match xs with
  | [] => ret acc
  | x :: xs' => acc' <- body x acc ;; for_each xs' acc' body
  end.

(** [np.arange(n)] *)
Definition np_arange (n : Z) : list Z := Z.of_nat <$> seq 0 (Z.to_nat n).

(** [np.split(ary, sections)], [sections] an int *)
Definition np_split {A} (ary : list A) (sections : Z) : M (list (list A)) :=
  let N := Z.of_nat (length ary) in
  r <- py_mod N sections ;;
  if negb (r =? 0) then raise ValueError
  else if sections <=? 0 then raise ValueError
  else
    let each := Z.to_nat (N `div` sections) in
    ret ((fun i => take each (drop (i * each) ary)) <$> seq 0 (Z.to_nat sections)).

(** The [k]-th run of [group_size] consecutive ranks. *)
Definition block (group_size k : Z) : list Z :=
  (fun i => k * group_size + i) <$> py_range group_size.

Section Functions.
Context `{Runtime}.

(** [get_rank()], [get_world_size()] *)
Definition get_rank : M Z := gets dist_rank.
Definition get_world_size : M Z := gets dist_world_size.

(** [dist.new_group(ranks)] *)
Definition dist_new_group (rs : list Z) : M Group :=
  modify (push_call (new_group rs)) ;; ret (mkGroup rs).

(** [int(s)] on a string *)
Definition int_of (s : string) : M Z :=
  match py_int s with
  | Some n => ret n
  | None => raise ValueError
  end.

(** [os.environ.get(k1, os.environ.get(k2, None))] *)
Definition environ_get2 (k1 k2 : string) : M (option string) :=
  env <- gets environ ;;
  ret (match env !! k1 with
       | Some v => Some v
       | None => env !! k2
       end).

(** [os.environ[k] = v] *)
Definition environ_set (k v : string) : M unit :=
  modify (fun p => set_environ (<[k := v]> (environ p)) p).

(** [simple_group_split]; [list(map(int, x))] leaves the ranks of a slice
    as they are. *)
Definition simple_group_split (world_size rank num_groups : Z) : M Group :=
  rank_list <- np_split (np_arange world_size) num_groups ;;
  groups <- for_each (py_range num_groups) []
              (fun i groups =>
                 rs <- py_getitem rank_list i ;;
                 g <- dist_new_group rs ;;
                 ret (groups ++ [g])) ;;
  group_size <- py_floordiv world_size num_groups ;;
  i <- py_floordiv rank group_size ;;
  py_getitem groups i.

(** [get_group]; the modulo of the assertion is evaluated before the
    comparison, and may raise. *)
Definition get_group (group_size : option Z) : M Group :=
  rank <- get_rank ;;
  world_size <- get_world_size ;;
  let group_size := default world_size group_size in
  r <- py_mod world_size group_size ;;
  py_assert (r =? 0) ;;
  num_groups <- py_floordiv world_size group_size ;;
  simple_group_split world_size rank num_groups.

(** [dist_init]; [timeout] in seconds. *)
Definition dist_init (backend : string) (addr port : option string)
    (rank world_size : option Z) (timeout : Z) : M (Z * Z) :=
  py_assert (bool_decide (backend ∈ ["nccl"; "gloo"])) ;;
  env <- gets environ ;;
  environ_set "MASTER_ADDR" (py_or addr (default "localhost" (env !! "MASTER_ADDR"))) ;;
  env <- gets environ ;;
  environ_set "MASTER_PORT" (py_or port (default "10314" (env !! "MASTER_PORT"))) ;;
  rank <- match rank with
          | None =>
            local_id <- environ_get2 "SLURM_LOCALID" "RANK" ;;
            match local_id with
            | None => raise RuntimeError
            | Some local_id => int_of local_id
            end
          | Some rank => ret rank
          end ;;
  world_size <- match world_size with
                | None =>
                  ntasks <- environ_get2 "SLURM_NTASKS" "WORLD_SIZE" ;;
                  match ntasks with
                  | None => raise RuntimeError
                  | Some ntasks => int_of ntasks
                  end
                | Some world_size => ret world_size
                end ;;
  modify (push_call (init_process_group backend rank world_size timeout)) ;;
  num_gpus <- gets cuda_device_count ;;
  device <- py_mod rank num_gpus ;;
  modify (push_call (set_device device)) ;;
  world_size <- get_world_size ;;
  rank <- get_rank ;;
  ret (rank, world_size).

(** The defaults of [dist_init]'s signature. *)
Definition dist_init_default : M (Z * Z) :=
  dist_init "nccl" None None None None 60000.

Definition dist_finalize : M unit := ret tt.

(** [dist_mode(func)], called with the arguments [func] is closed over. *)
Definition dist_mode {A} (func : M A) : M unit :=
  dist_init_default ;;
  func ;;
  dist_finalize.

(** ** The configuration object

    [cfg] is an [EasyDict]: [cfg.policy] is a dict, with int-valued sizes
    among its entries and the sub-dicts [cfg.policy.learn] and
    [cfg.policy.collect]; reading an attribute that is not there raises
    [AttributeError].  [to_ddp_config] updates the object in place, so
    the object is part of the state and keeps the updates made before an
    exception. *)
Record Policy := mkPolicy {
  sizes : gmap string Z;
  learn : option (gmap string Z);
  collect : option (gmap string Z)
}.
Record Config := mkConfig { policy : option Policy }.

Definition MC (A : Type) : Type :=
  Config * Process -> outcome A * (Config * Process).

Definition cret {A} (a : A) : MC A := fun s => (Return a, s).
Definition craise {A} (e : PyExc) : MC A := fun s => (Raise e, s).
Definition cbind {A B} (m : MC A) (k : A -> MC B) : MC B :=
  fun s => match m s with
           | (Return a, s') => k a s'
           | (Raise e, s') => (Raise e, s')
           end.

Declare Scope config_scope.
Notation "x <- c ;; k" := (cbind c (fun x => k))
  (at level 100, c at next level, right associativity) : config_scope.
Notation "c ;; k" := (cbind c (fun _ => k))
  (at level 100, right associativity) : config_scope.

(** A function of the process, called while the object is in hand. *)
Definition of_process {A} (m : M A) : MC A :=
  fun s => ((m s.2).1, (s.1, (m s.2).2)).

(** [cfg.policy], [cfg.policy.learn], [cfg.policy.collect] *)
Definition attr_policy : MC Policy :=
  fun s => match policy s.1 with
           | Some pol => (Return pol, s)
           | None => (Raise AttributeError, s)
           end.
Definition attr_learn : MC (gmap string Z) :=
  cbind attr_policy (fun pol =>
    match learn pol with
    | Some d => cret d
    | None => craise AttributeError
    end).
Definition attr_collect : MC (gmap string Z) :=
  cbind attr_policy (fun pol =>
    match collect pol with
    | Some d => cret d
    | None => craise AttributeError
    end).

(** Assignments to an entry of [cfg.policy], [cfg.policy.learn],
    [cfg.policy.collect] *)
Definition update_policy (f : Policy -> Policy) : MC unit :=
  fun s => (Return tt, (mkConfig (f <$> policy s.1), s.2)).
Definition set_size (k : string) (v : Z) : MC unit :=
  update_policy (fun pol =>
    mkPolicy (<[k := v]> (sizes pol)) (learn pol) (collect pol)).
Definition set_learn (k : string) (v : Z) : MC unit :=
  update_policy (fun pol =>
    mkPolicy (sizes pol) (<[k := v]> <$> learn pol) (collect pol)).
Definition set_collect (k : string) (v : Z) : MC unit :=
  update_policy (fun pol =>
    mkPolicy (sizes pol) (learn pol) (<[k := v]> <$> collect pol)).

(** [int(np.ceil(v / w))] on ints.  The quotient is an exact rational
    here, where the code rounds it to binary64 before taking the
    ceiling; the two agree on sizes below 2^52 in absolute value, to
    which the theorems about [to_ddp_config] are restricted. *)
Definition ceil_div (v w : Z) : MC Z :=
  if w =? 0 then craise ZeroDivisionError
  else cret (Qceiling (inject_Z v / inject_Z w)).

Section ConfigFunctions.
Local Open Scope config_scope.

(** [to_ddp_config(cfg)], with [cfg] the object of the state. *)
Definition to_ddp_config : MC Config :=
  w <- of_process get_world_size ;;
  pol <- attr_policy ;;
  match sizes pol !! "batch_size" with
  | Some v => v' <- ceil_div v w ;; set_size "batch_size" v'
  | None => cret tt
  end ;;
  learn <- attr_learn ;;
  match learn !! "batch_size" with
  | Some v => v' <- ceil_div v w ;; set_learn "batch_size" v'
  | None => cret tt
  end ;;
  collect <- attr_collect ;;
  match collect !! "n_sample" with
  | Some v => v' <- ceil_div v w ;; set_collect "n_sample" v'
  | None => cret tt
  end ;;
  collect <- attr_collect ;;
  match collect !! "n_episode" with
  | Some v => v' <- ceil_div v w ;; set_collect "n_episode" v'
  | None => cret tt
  end ;;
  fun s => (Return s.1, s).

End ConfigFunctions.

(** A dict with the entry under [k], if there is one, scaled to one of
    [w] processes. *)
Definition scaled (w : Z) (k : string) (d : gmap string Z) : gmap string Z :=
  match d !! k with
  | Some v => <[k := Qceiling (inject_Z v / inject_Z w)]> d
  | None => d
  end.

(** [with DDPContext(): body]: [__enter__] runs [dist_init()], [__exit__]
    runs [dist_finalize()] whether the body raised or not, and returns
    [None], so that an exception of the body goes on. *)
Definition DDPContext_enter : M unit := dist_init_default ;; ret tt.
Definition DDPContext_exit : M unit := dist_finalize.
Definition with_DDPContext {A} (body : M A) : M A :=
  DDPContext_enter ;;
  fun p => match body p with
           | (Return a, p') => (DDPContext_exit ;; ret a) p'
           | (Raise e, p') => (DDPContext_exit ;; raise e) p'
           end.

(** ** [dist_init] as a state transformer *)

(** The environment after lines 185-186. *)
Definition endpoint (addr port : option string) (p : Process) : Process :=
  set_environ
    (<["MASTER_PORT" := py_or port (default "10314" (environ p !! "MASTER_PORT"))]>
       (<["MASTER_ADDR" := py_or addr (default "localhost" (environ p !! "MASTER_ADDR"))]>
          (environ p)))
    p.

(** Lines 188-199: an argument, else the first of two variables, read
    with [int]. *)
Definition resolved (explicit : option Z) (env : gmap string string)
    (k1 k2 : string) : outcome Z :=
  match explicit with
  | Some n => Return n
  | None =>
    match env !! k1, env !! k2 with
    | Some s, _ | None, Some s =>
        match py_int s with Some n => Return n | None => Raise ValueError end
    | None, None => Raise RuntimeError
    end
  end.

Definition initialised (backend : string) (addr port : option string)
    (rank world_size timeout : Z) (p : Process) : Process :=
  push_call (init_process_group backend rank world_size timeout)
    (endpoint addr port p).

Definition dist_init_result (backend : string) (addr port : option string)
    (rank world_size : option Z) (timeout : Z) (p : Process)
    : outcome (Z * Z) * Process :=
  if bool_decide (backend ∈ ["nccl"; "gloo"]) then
    match resolved rank (environ p) "SLURM_LOCALID" "RANK" with
    | Raise e => (Raise e, endpoint addr port p)
    | Return r =>
      match resolved world_size (environ p) "SLURM_NTASKS" "WORLD_SIZE" with
      | Raise e => (Raise e, endpoint addr port p)
      | Return w =>
        let p2 := initialised backend addr port r w timeout p in
        if cuda_device_count p2 =? 0 then (Raise ZeroDivisionError, p2)
        else
          let p3 := push_call (set_device (r `mod` cuda_device_count p2)) p2 in
          (Return (dist_rank p3, dist_world_size p3), p3)
      end
    end
  else (Raise AssertionError, p).

End Functions.

End Helper.

(** The unsigned decimal numerals, among the strings [int] reads. *)
Fixpoint decimal_digits (s : string) (acc : Z) : option Z :=
  match s with
  | EmptyString => Some acc
  | String c s' =>
    let d := Z.of_N (Ascii.N_of_ascii c) - 48 in
    if (0 <=? d) && (d <=? 9) then decimal_digits s' (10 * acc + d) else None
  end.
Definition decimal (s : string) : option Z :=
  match s with
  | EmptyString => None
  | _ => decimal_digits s 0
  end.

(** A process that torch reports as rank [r] of [w], on a machine with
    [g] GPUs. *)
Definition node (r w g : Z) : Helper.Runtime :=
  {| Helper.dist_rank := fun _ => r;
     Helper.dist_world_size := fun _ => w;
     Helper.cuda_device_count := fun _ => g;
     Helper.py_int := decimal |}.

(** * Part III: the handlers compute their closed forms *)

Section Steps.
Context {L : Type} `{BaseLeague L}.

Lemma py_getitem_mod {A} (l : list A) (n : Z) :
  l ≠ [] →
  ∃ x, l !! Z.to_nat (n `mod` Z.of_nat (length l)) = Some x ∧
       ∀ s : Sys L, py_getitem (S:=Sys L) l (n `mod` Z.of_nat (length l)) s = (Return x, s).
Proof.
  intros Hl.
  assert (0 < Z.of_nat (length l)) as Hpos by (destruct l; [done | simpl; lia]).
  pose proof (Z.mod_pos_bound n _ Hpos) as [Hlo Hhi].
  destruct (l !! Z.to_nat (n `mod` Z.of_nat (length l))) as [x|] eqn:Hx.
  - exists x. split; [done|]. intros s. unfold py_getitem. cbv zeta.
    assert ((n `mod` Z.of_nat (length l) <? 0) = false) as Hlt by lia.
    assert ((Z.of_nat (length l) <=? n `mod` Z.of_nat (length l)) = false) as Hge by lia.
    rewrite Hlt; simpl. by rewrite Hlt, Hge, Hx.
  - apply lookup_ge_None in Hx. lia.
Qed.

Lemma greeting_step (c : LeagueCoordinator L) (w : World) (a : string) :
  active_players_ids (league c) ≠ [] →
  (_total_send_jobs c ≤ 0 ∨ _eval_frequency c ≠ 0) →
  ∃ p, active_players_ids (league c)
         !! Z.to_nat (_total_send_jobs c `mod` Z.of_nat (length (active_players_ids (league c))))
       = Some p ∧
       _on_actor_greeting a (c, w) = (Return tt, greeted c w a p).
Proof.
  intros Hne Hfreq.
  destruct (py_getitem_mod _ (_total_send_jobs c) Hne) as (p & Hp & Hg).
  exists p. split; [done|].
  assert (Z.of_nat (length (active_players_ids (league c))) ≠ 0) as HP
    by (destruct (active_players_ids (league c)); [done | simpl; lia]).
  apply Z.eqb_neq in HP.
  destruct c as [l lk n r f jobs last total tn lg tg fin]; simpl in *.
  unfold _on_actor_greeting, with_lock, bind, attr, assign, effect, time, ret, py_mod, league_call.
  cbn.
  destruct w as [clk k es ss ii].
  unfold greeted, dispatched_job, mark_eval; cbn.
  destruct last, total; cbn; rewrite HP; cbn; rewrite Hg; cbn;
    (destruct (n >? 0) eqn:Hn; cbn;
     [ destruct (f =? 0) eqn:Hf; cbn; [lia|]; by destruct (n `mod` f =? 0) | done ]).
Qed.

Lemma greeting_refused_step (c : LeagueCoordinator L) (w : World) (a : string) :
  active_players_ids (league c) = [] →
  _on_actor_greeting a (c, w) = (Raise ZeroDivisionError, greeting_refused c w a).
Proof.
  intros Hnil.
  destruct c as [l lk n r f jobs last total tn lg tg fin]; simpl in *.
  destruct w as [clk k es ss ii].
  unfold _on_actor_greeting, with_lock, bind, attr, assign, effect, time, ret,
    py_mod, league_call, greeting_refused.
  cbn. destruct last, total; cbn; by rewrite Hnil.
Qed.

Lemma Qeq_bool_inject_Z (z : Z) : Qeq_bool (inject_Z z) 0 = (z =? 0).
Proof. unfold Qeq_bool, inject_Z; simpl. f_equal; lia. Qed.

Lemma job_step (c : LeagueCoordinator L) (w : World) (job : Job) (total old : Q) :
  _total_collect_time c = Some total →
  _last_collect_time c = Some old →
  _total_recv_jobs c + 1 ≠ 0 →
  _on_actor_job job (c, w) = (Return tt, job_finished c w job total old).
Proof.
  intros Ht Ho Hn.
  destruct c as [l lk n r f jobs last tot tn lg tg fin]; simpl in *. subst.
  destruct w as [clk k es ss ii].
  unfold _on_actor_job, bind, attr, assign, effect, time, ret, py_truediv,
    league_do, job_finished, job_received, collect_job_speed.
  cbn. rewrite Qeq_bool_inject_Z.
  by destruct (Z.eqb_spec (r + 1) 0).
Qed.

Lemma job_refused_step (c : LeagueCoordinator L) (w : World) (job : Job) :
  _total_collect_time c = None ∨ _last_collect_time c = None →
  _on_actor_job job (c, w) = (Raise TypeError, job_received c w).
Proof.
  intros Hnone.
  destruct c as [l lk n r f jobs last tot tn lg tg fin]; simpl in *.
  destruct w as [clk k es ss ii].
  unfold _on_actor_job, bind, attr, assign, effect, time, ret, job_received.
  cbn. destruct Hnone; subst; [by destruct last | by destruct tot].
Qed.

Lemma traj_loop (ts : list Trajectory) (cur : Z) (s : Sys L) :
  for_each ts cur (fun traj cur =>
     n <- attr _traj_num ;; assign (set_traj_num (n + 1)) ;; ret (cur + 1)) s
  = (Return (cur + Z.of_nat (length ts)),
     (set_traj_num (_traj_num s.1 + Z.of_nat (length ts)) s.1, s.2)).
Proof.
  revert cur s. induction ts as [|t ts IH]; intros cur [c w].
  - cbn. rewrite !Z.add_0_r. by destruct c.
  - cbn [for_each]. unfold bind at 1. unfold bind at 1, attr at 1; cbn.
    rewrite IH; cbn. f_equal; [f_equal; lia|]. f_equal.
    destruct c; unfold set_traj_num; cbn. f_equal; lia.
Qed.

Lemma batch_loop (envs : list EnvTrajectories) (cur : Z) (s : Sys L) :
  for_each envs cur (fun env_trajectories cur =>
     for_each (trajectories env_trajectories) cur (fun traj cur =>
        n <- attr _traj_num ;; assign (set_traj_num (n + 1)) ;; ret (cur + 1))) s
  = (Return (cur + traj_count envs),
     (set_traj_num (_traj_num s.1 + traj_count envs) s.1, s.2)).
Proof.
  revert cur s. induction envs as [|e envs IH]; intros cur [c w].
  - cbn. rewrite !Z.add_0_r. by destruct c.
  - cbn [for_each traj_count]. unfold bind at 1. rewrite traj_loop; cbn.
    rewrite IH; cbn. f_equal; [f_equal; lia|]. f_equal.
    destruct c; unfold set_traj_num; cbn. f_equal; lia.
Qed.

Lemma count_trajectories_step (data : ActorData) (s : Sys L) :
  count_trajectories data s
  = (Return (traj_count (train_data data)),
     (set_traj_num (_traj_num s.1 + traj_count (train_data data)) s.1, s.2)).
Proof. unfold count_trajectories. by rewrite batch_loop. Qed.

Lemma count_data_step (c : LeagueCoordinator L) (w : World) (data : ActorData) :
  _count_data data (c, w) = counted c w data.
Proof.
  destruct c as [l lk n r f jobs last tot tn lg tg fin].
  destruct w as [clk k es ss ii].
  unfold _count_data, counted, data_published, data_counted, data_timed,
    data_elapsed, data_world, warmup_ends.
  unfold bind, attr, assign, effect, time, ret, py_truediv, raise.
  destruct lg as [lg|]; cbn -[count_trajectories];
    destruct (Qle_bool (inject_Z (60 * 10)) tg) eqn:Hq; destruct fin;
    cbn -[count_trajectories]; try done.
  all: rewrite count_trajectories_step; cbn.
  all: repeat match goal with
              | |- context [Qeq_bool ?e 0] => destruct (Qeq_bool e 0) eqn:?; cbn
              end; try done.
Qed.

Lemma job_faulted_step (c : LeagueCoordinator L) (w : World) (job : Job) (total old : Q) :
  _total_collect_time c = Some total →
  _last_collect_time c = Some old →
  _total_recv_jobs c + 1 = 0 →
  _on_actor_job job (c, w) = (Raise ZeroDivisionError, job_accumulated c w total old).
Proof.
  intros Ht Ho Hn.
  destruct c as [l lk n r f jobs last tot tn lg tg fin]; simpl in *. subst.
  destruct w as [clk k es ss ii].
  unfold _on_actor_job, bind, attr, assign, effect, time, ret, py_truediv,
    league_do, job_accumulated, job_received.
  cbn. rewrite Qeq_bool_inject_Z.
  by destruct (Z.eqb_spec (r + 1) 0).
Qed.

Lemma greeting_faulted_step (c : LeagueCoordinator L) (w : World) (a p : string) :
  active_players_ids (league c)
    !! Z.to_nat (_total_send_jobs c `mod` Z.of_nat (length (active_players_ids (league c))))
  = Some p →
  0 < _total_send_jobs c → _eval_frequency c = 0 →
  _on_actor_greeting a (c, w) = (Raise ZeroDivisionError, greeting_faulted c w a p).
Proof.
  intros Hp Hn Hf.
  assert (active_players_ids (league c) ≠ []) as Hne
    by (intros Hnil; by rewrite Hnil in Hp).
  destruct (py_getitem_mod (active_players_ids (league c)) (_total_send_jobs c) Hne)
    as (p' & Hp' & Hg).
  rewrite Hp in Hp'. injection Hp' as <-.
  assert (Z.of_nat (length (active_players_ids (league c))) ≠ 0) as HP
    by (destruct (active_players_ids (league c)); [done | simpl; lia]).
  apply Z.eqb_neq in HP.
  destruct c as [l lk n r f jobs last total tn lg tg fin]; simpl in *. subst f.
  destruct w as [clk k es ss ii].
  unfold _on_actor_greeting, with_lock, bind, attr, assign, effect, time, ret,
    py_mod, league_call, greeting_faulted, greeted, raise.
  assert ((n >? 0) = true) as Hgt by lia.
  cbn. destruct last, total; cbn; rewrite HP; cbn; rewrite Hg; cbn;
    rewrite Hgt; by cbn.
Qed.

(** Every delivery is one of the cases of [handled]. *)
Lemma handle_handled (s : Sys L) (ev : Event) :
  handled s ev (handle ev s).1 (handle ev s).2.
Proof.
  destruct s as [c w]. destruct ev as [a|m|j|d|]; cbn [handle].
  - destruct (active_players_ids (league c)) as [|p0 ps] eqn:Hps.
    + rewrite greeting_refused_step by done. by constructor.
    + destruct (py_getitem_mod (p0 :: ps) (_total_send_jobs c)) as (p & Hp & _);
        [done|]. rewrite <- Hps in Hp.
      destruct (Z.eq_dec (_eval_frequency c) 0) as [Hz|Hnz];
        [destruct (Z_le_gt_dec (_total_send_jobs c) 0) as [Hle|Hgt]|].
      * destruct (greeting_step c w a) as (p' & Hp' & ->);
          [by rewrite Hps | by left |]. constructor; [done | by left].
      * rewrite (greeting_faulted_step c w a p) by (done || lia).
        constructor; (done || lia).
      * destruct (greeting_step c w a) as (p' & Hp' & ->);
          [by rewrite Hps | by right |]. constructor; [done | by right].
  - constructor.
  - destruct (_total_collect_time c) as [total|] eqn:Ht;
      [destruct (_last_collect_time c) as [old|] eqn:Ho|].
    + destruct (Z.eq_dec (_total_recv_jobs c + 1) 0) as [Hz|Hnz].
      * rewrite (job_faulted_step c w j total old) by done. by constructor.
      * rewrite (job_step c w j total old) by done. by constructor.
    + rewrite job_refused_step by by right. constructor. by right.
    + rewrite job_refused_step by by left. constructor. by left.
  - rewrite count_data_step. constructor.
  - constructor.
Qed.

Lemma run_cons (ev : Event) (evs : list Event) (s : Sys L) :
  run (ev :: evs) s = run evs (step s ev).
Proof. done. Qed.

Lemma run_app (evs1 evs2 : list Event) (s : Sys L) :
  run (evs1 ++ evs2) s = run evs2 (run evs1 s).
Proof. apply fold_left_app. Qed.

Lemma run_snoc (evs : list Event) (ev : Event) (s : Sys L) :
  run (evs ++ [ev]) s = step (run evs s) ev.
Proof. by rewrite run_app. Qed.

End Steps.

(** The throughput tracker leaves alone what it does not own. *)
Ltac frame_counted :=
  unfold counted, data_published, data_counted, data_timed, data_world;
  repeat case_match; cbn; try done.

(** Case analysis on one delivery. *)
Ltac step_cases s ev :=
  unfold step;
  destruct (handle_handled s ev) as
    [ c0 w0 a0 Hnil | c0 w0 a0 p0 Hp0 Hfreq | c0 w0 a0 p0 Hp0 Hpos Hfreq
    | c0 w0 m0 | c0 w0 j0 Hnone | c0 w0 j0 total0 old0 Htotal Hold Hrecv
    | c0 w0 j0 total0 old0 Htotal Hold Hrecv | c0 w0 d0 | c0 w0 ].

(** * Part IV: the job dispatcher *)

Section Dispatcher.
Context {L : Type} `{BaseLeague L}.

(** Greetings alone, from a state whose counter is [k], with a league
    whose active players stay [ps]. *)
Lemma greetings_run (ps : list string) (actors : list string) :
  ps ≠ [] →
  (∀ l p, active_players_ids (get_job_info l p).2 = active_players_ids l) →
  ∀ (k : nat) (c : LeagueCoordinator L) (w : World),
    active_players_ids (league c) = ps →
    _eval_frequency c ≠ 0 →
    _total_send_jobs c = Z.of_nat k →
    let s := run (ACTOR_GREETING <$> actors) (c, w) in
    emitted s.2 = emitted w ++ round_robin ps (_eval_frequency c) (league c) k actors
    ∧ _total_send_jobs s.1 = Z.of_nat (k + length actors)
    ∧ _eval_frequency s.1 = _eval_frequency c
    ∧ active_players_ids (league s.1) = ps.
Proof.
  intros Hne Hfixed. induction actors as [|a rest IH]; intros k c w Hps Hf Hk.
  - cbn. rewrite app_nil_r, Nat.add_0_r. done.
  - cbn [fmap list_fmap run fold_left].
    destruct (greeting_step c w a) as (p & Hp & Hstep);
      [by rewrite Hps | by right |].
    assert (step (c, w) (ACTOR_GREETING a) = greeted c w a p) as Hs
      by (unfold step; cbn [handle]; by rewrite Hstep).
    rewrite Hs.
    rewrite Hps, Hk, <- Nat2Z.inj_mod, Nat2Z.id in Hp.
    specialize (IH (S k) (greeted c w a p).1 (greeted c w a p).2).
    rewrite <- surjective_pairing in IH.
    destruct IH as (He & Hn & Hfr & Hl); cbn.
    + by rewrite Hfixed.
    + done.
    + lia.
    + unfold run in He, Hn, Hfr, Hl. rewrite He, Hn, Hfr, Hl. cbn.
      rewrite Hp. unfold dispatched_job. rewrite Hk, <- app_assoc. cbn.
      split; [done|]. split; [lia | done].
Qed.

Lemma round_robin_length (ps : list string) (freq : Z) (actors : list string) :
  ps ≠ [] → ∀ (l : L) (k : nat),
  length (round_robin ps freq l k actors) = length actors.
Proof.
  intros Hne. induction actors as [|a rest IH]; intros l k; [done|]. cbn.
  destruct (ps !! (k `mod` length ps)%nat) eqn:Hp.
  - cbn. by rewrite IH.
  - apply lookup_ge_None in Hp.
    pose proof (Nat.mod_upper_bound k (length ps)).
    destruct ps; [done | simpl in *; lia].
Qed.

Lemma mark_eval_job_no (freq : Z) (j : Job) : job_no (mark_eval freq j) = job_no j.
Proof. unfold mark_eval. by destruct (_ && _). Qed.

Lemma mark_eval_is_eval (freq : Z) (j : Job) :
  is_eval (mark_eval freq j)
  = is_eval j || (job_no j >? 0) && (job_no j `mod` freq =? 0).
Proof.
  unfold mark_eval. destruct (_ && _); cbn; [by rewrite orb_true_r|].
  by rewrite orb_false_r.
Qed.

Lemma round_robin_job_no (ps : list string) (freq : Z) (actors : list string) :
  ps ≠ [] → ∀ (l : L) (k : nat),
  (job_no ∘ job_of) <$> round_robin ps freq l k actors
  = Z.of_nat <$> seq k (length actors).
Proof.
  intros Hne. induction actors as [|a rest IH]; intros l k; [done|]. cbn.
  destruct (ps !! (k `mod` length ps)%nat) eqn:Hp.
  - cbn. rewrite mark_eval_job_no. cbn. f_equal. apply IH.
  - apply lookup_ge_None in Hp.
    pose proof (Nat.mod_upper_bound k (length ps)).
    destruct ps; [done | simpl in *; lia].
Qed.

Lemma round_robin_lookup (ps : list string) (freq : Z) (actors : list string) :
  ∀ (l : L) (k i : nat) (e : Emitted),
  round_robin ps freq l k actors !! i = Some e →
  ∃ a p l',
    actors !! i = Some a ∧ ps !! ((k + i) `mod` length ps)%nat = Some p ∧
    e = COORDINATOR_DISPATCH_ACTOR_JOB a
          (set_actor_id a
             (mark_eval freq (set_job_no (Z.of_nat (k + i)) (get_job_info l' p).1))).
Proof.
  induction actors as [|a rest IH]; intros l k i e; [done|]. cbn.
  destruct (ps !! (k `mod` length ps)%nat) as [p|] eqn:Hp; [|done].
  destruct i as [|i]; cbn.
  - intros [= <-]. exists a, p, l. by rewrite Nat.add_0_r.
  - intros He. destruct (IH _ _ _ _ He) as (a' & p' & l' & Ha & Hp' & ->).
    exists a', p', l'. by rewrite <- Nat.add_succ_comm.
Qed.

(** An event other than a greeting leaves the dispatcher's state alone. *)
Lemma quiet_step (s : Sys L) (ev : Event) :
  not_greeting ev →
  emitted (step s ev).2 = emitted s.2
  ∧ _running_jobs (step s ev).1 = _running_jobs s.1
  ∧ _total_send_jobs (step s ev).1 = _total_send_jobs s.1
  ∧ _eval_frequency (step s ev).1 = _eval_frequency s.1
  ∧ (fixed_players L →
     active_players_ids (league (step s ev).1) = active_players_ids (league s.1)).
Proof.
  intros Hev. step_cases s ev; try done; cbn.
  - split_and!; try done. intros (_ & Hu & Hc & _). by rewrite Hc, Hu.
  - split_and!; try done. by intros (_ & _ & _ & Hp).
  - assert (emitted (counted c0 w0 d0).2.2 = emitted w0
            ∧ _running_jobs (counted c0 w0 d0).2.1 = _running_jobs c0
            ∧ _total_send_jobs (counted c0 w0 d0).2.1 = _total_send_jobs c0
            ∧ _eval_frequency (counted c0 w0 d0).2.1 = _eval_frequency c0
            ∧ league (counted c0 w0 d0).2.1 = league c0)
      as (-> & -> & -> & -> & ->) by frame_counted.
    done.
Qed.

Lemma greetings_of_snoc (evs : list Event) (ev : Event) :
  greetings_of (evs ++ [ev])
  = greetings_of evs
    ++ match ev with ACTOR_GREETING a => [a] | _ => [] end.
Proof. unfold greetings_of. rewrite omap_app. by destruct ev. Qed.

(** What the dispatcher has done after any run from the creation of the
    coordinator, when the active players are a fixed non-empty list. *)
Lemma dispatches_run (l0 : L) (clk : nat → Q) (evs : list Event) :
  active_players_ids l0 ≠ [] →
  fixed_players L →
  let ps := active_players_ids l0 in
  let s := run evs (start l0 clk) in
  _eval_frequency s.1 = 10
  ∧ active_players_ids (league s.1) = ps
  ∧ _total_send_jobs s.1 = Z.of_nat (length (greetings_of evs))
  ∧ actor_of <$> emitted s.2 = greetings_of evs
  ∧ (job_no ∘ job_of) <$> emitted s.2
    = Z.of_nat <$> seq 0 (length (greetings_of evs))
  ∧ (∀ i e, emitted s.2 !! i = Some e →
       ∃ p l, ps !! (i `mod` length ps)%nat = Some p ∧
         job_of e
         = set_actor_id (actor_of e)
             (mark_eval 10 (set_job_no (Z.of_nat i) (get_job_info l p).1)))
  ∧ dom (_running_jobs s.1)
    = list_to_set ((λ a, "actor_" +:+ a) <$> greetings_of evs).
Proof.
  intros Hne Hfixed ps s. subst s.
  induction evs as [|ev evs IH] using rev_ind.
  - cbn. split_and!; done.
  - rewrite run_snoc, greetings_of_snoc.
    destruct IH as (Hf & Hps & Hn & Ha & Hno & Hjob & Hdom).
    remember (run evs (start l0 clk)) as s eqn:Hs. clear Hs.
    destruct ev as [a|m|j|d|].
    2-5: match goal with
         | |- context [step ?s0 ?ev] =>
           destruct (quiet_step s0 ev I) as (-> & -> & -> & -> & Hl);
           by rewrite (Hl Hfixed), app_nil_r
         end.
    + destruct s as [c w]. cbn [fst snd] in *.
      destruct (greeting_step c w a) as (p & Hp & Hstep);
        [by rewrite Hps | right; lia |].
      assert (step (c, w) (ACTOR_GREETING a) = greeted c w a p) as ->
        by (unfold step; cbn [handle]; by rewrite Hstep).
      rewrite Hps, Hn, <- Nat2Z.inj_mod, Nat2Z.id in Hp.
      assert (length (emitted w) = length (greetings_of evs)) as Hlen
        by by rewrite <- Ha, length_fmap.
      destruct Hfixed as (Hfix & _).
      cbn -[String.append]. rewrite length_app, Nat.add_1_r, seq_S, !fmap_app.
      cbn -[String.append]. unfold dispatched_job at 2. cbn -[String.append].
      rewrite mark_eval_job_no. cbn -[String.append].
      rewrite Ha, Hno, Hn, Hfix, dom_insert_L, Hdom, list_to_set_app_L.
      repeat split; try done; [lia | | set_solver].
      intros i e He. apply lookup_app_Some in He as [He|[Hi He]].
      * by apply Hjob.
      * rewrite Hlen in *. assert (i = length (greetings_of evs)) as ->.
        { apply list_lookup_singleton_Some in He as [? _]. lia. }
        rewrite Nat.sub_diag in He. injection He as <-.
        exists p, (league c). split; [done|]. unfold dispatched_job. cbn.
        by rewrite Hf, Hn.
Qed.

(** C1. In every run of a coordinator from its creation, with a fixed
    non-empty list [ps] of active players: the [N] greetings of the run
    are answered by [N] dispatches, in order, whose sequence numbers are
    [0 .. N-1], and the [i]-th of them carries the job the league made
    for the player at index [i mod P].  When the run consists of
    greetings only, the dispatches are exactly those of the round-robin
    rule. *)
Theorem greetings_round_robin (l0 : L) (clk : nat → Q) (evs : list Event) :
  active_players_ids l0 ≠ [] →
  fixed_players L →
  let ps := active_players_ids l0 in
  let s := run evs (start l0 clk) in
  actor_of <$> emitted s.2 = greetings_of evs
  ∧ (job_no ∘ job_of) <$> emitted s.2
    = Z.of_nat <$> seq 0 (length (greetings_of evs))
  ∧ (∀ i e, emitted s.2 !! i = Some e →
       ∃ p l, ps !! (i `mod` length ps)%nat = Some p ∧
         job_of e
         = set_actor_id (actor_of e)
             (mark_eval 10 (set_job_no (Z.of_nat i) (get_job_info l p).1)))
  ∧ (∀ actors, evs = ACTOR_GREETING <$> actors →
       emitted s.2 = round_robin ps 10 l0 0 actors).
Proof.
  intros Hne Hfixed ps s.
  destruct (dispatches_run l0 clk evs Hne Hfixed)
    as (_ & _ & _ & Ha & Hno & Hjob & _).
  split; [done|]. split; [done|]. split; [done|].
  intros actors ->. destruct Hfixed as (Hfix & _).
  by destruct (greetings_run ps actors Hne Hfix 0 (__init__ l0)
                 (mkWorld clk 0%nat [] [] [])) as (He & _).
Qed.

(** No handler writes [_eval_frequency]. *)
Lemma eval_frequency_step (s : Sys L) (ev : Event) :
  _eval_frequency (step s ev).1 = _eval_frequency s.1.
Proof.
  step_cases s ev; try done. frame_counted.
Qed.

(** C2. The dispatcher marks the job it dispatches as an evaluation job
    exactly when its sequence number is positive and a multiple of the
    evaluation frequency: the flag of the dispatched job is the flag the
    league gave the job or that condition, so for a job that the league
    hands out unmarked it is that condition.  The frequency is 10 from
    the creation of the coordinator on and no handler changes it. *)
Theorem eval_flag_rule (c : LeagueCoordinator L) (w : World) (a : string) :
  active_players_ids (league c) ≠ [] →
  _eval_frequency c ≠ 0 →
  (∀ l0 : L, _eval_frequency (__init__ l0) = 10)
  ∧ (∀ (s : Sys L) ev, _eval_frequency (step s ev).1 = _eval_frequency s.1)
  ∧ ∃ p job,
      active_players_ids (league c)
        !! Z.to_nat (_total_send_jobs c
                     `mod` Z.of_nat (length (active_players_ids (league c))))
      = Some p
      ∧ handle (ACTOR_GREETING a) (c, w) = (Return tt, step (c, w) (ACTOR_GREETING a))
      ∧ emitted (step (c, w) (ACTOR_GREETING a)).2
        = emitted w ++ [COORDINATOR_DISPATCH_ACTOR_JOB a job]
      ∧ job_no job = _total_send_jobs c
      ∧ is_eval job
        = is_eval (get_job_info (league c) p).1
          || (job_no job >? 0) && (job_no job `mod` _eval_frequency c =? 0)
      ∧ (is_eval (get_job_info (league c) p).1 = false →
         (is_eval job = true ↔
          job_no job > 0 ∧ job_no job `mod` _eval_frequency c = 0)).
Proof.
  intros Hne Hf. split; [done|]. split; [apply eval_frequency_step|].
  destruct (greeting_step c w a) as (p & Hp & Hstep); [done | by right |].
  exists p, (dispatched_job c a p). unfold step. cbn [handle]. rewrite Hstep.
  split; [done|]. split; [done|]. split; [done|].
  assert (job_no (dispatched_job c a p) = _total_send_jobs c) as Hno
    by (unfold dispatched_job; cbn; by rewrite mark_eval_job_no).
  assert (is_eval (dispatched_job c a p)
          = is_eval (get_job_info (league c) p).1
            || (_total_send_jobs c >? 0)
               && (_total_send_jobs c `mod` _eval_frequency c =? 0)) as Hev
    by (unfold dispatched_job; cbn; by rewrite mark_eval_is_eval).
  rewrite Hno, Hev. split; [done|]. split; [done|]. intros ->. cbn.
  rewrite andb_true_iff, Z.eqb_eq, Z.gtb_gt. done.
Qed.

(** C3. With no active player the greeting raises [ZeroDivisionError]
    (from the modulo of line 83); nothing is emitted, the running-jobs
    table, the sequence counter and the league are as before, and the
    lock is free again. *)
Theorem greeting_without_players (c : LeagueCoordinator L) (w : World) (a : string) :
  active_players_ids (league c) = [] →
  let r := handle (ACTOR_GREETING a) (c, w) in
  r.1 = Raise ZeroDivisionError
  ∧ emitted r.2.2 = emitted w
  ∧ _running_jobs r.2.1 = _running_jobs c
  ∧ _total_send_jobs r.2.1 = _total_send_jobs c
  ∧ league r.2.1 = league c
  ∧ _lock r.2.1 = false.
Proof.
  intros Hnil r. subst r. cbn [handle]. by rewrite greeting_refused_step.
Qed.

(** *** The running-jobs table *)

Lemma last_dispatch_snoc (a a' : string) (j : Job) (es : list Emitted) :
  last_dispatch a (es ++ [COORDINATOR_DISPATCH_ACTOR_JOB a' j])
  = if decide (a' = a) then Some j else last_dispatch a es.
Proof.
  induction es as [|e es IH]; cbn; [done|]. rewrite IH.
  destruct (decide (a' = a)); [done|]. done.
Qed.

Lemma actor_key_inj (a a' : string) : "actor_" +:+ a = "actor_" +:+ a' → a = a'.
Proof. intros Heq. by simplify_eq/=. Qed.

Lemma counted_running_jobs (c : LeagueCoordinator L) (w : World) (d : ActorData) :
  _running_jobs (counted c w d).2.1 = _running_jobs c
  ∧ emitted (counted c w d).2.2 = emitted w.
Proof. frame_counted. Qed.

Lemma table_agrees_step (s : Sys L) (ev : Event) :
  table_agrees s → table_agrees (step s ev).
Proof.
  intros [Hlast Hkey]. step_cases s ev;
    try (split; [exact Hlast | exact Hkey]).
  - split; cbn -[String.append].
    + intros a'. rewrite last_dispatch_snoc, lookup_insert.
      destruct (decide (a0 = a')) as [->|Hne].
      * by rewrite decide_True.
      * rewrite decide_False; [apply Hlast|]. intros ?%actor_key_inj. done.
    + intros k. rewrite lookup_insert. destruct (decide _) as [<-|]; [by exists a0|].
      apply Hkey.
  - destruct (counted_running_jobs c0 w0 d0) as [Ht He].
    split; [intros a; rewrite Ht, He; apply Hlast | intros k; rewrite Ht; apply Hkey].
Qed.

Lemma table_agrees_run (evs : list Event) (s : Sys L) :
  table_agrees s → table_agrees (run evs s).
Proof.
  revert s. induction evs as [|ev evs IH]; intros s Hs; [done|].
  cbn. apply IH. by apply table_agrees_step.
Qed.

(** One delivery keeps every entry, or replaces it by the job it has just
    dispatched to the entry's actor. *)
Lemma running_jobs_step (s : Sys L) (ev : Event) (k : string) (j : Job) :
  _running_jobs s.1 !! k = Some j →
  ∃ j', _running_jobs (step s ev).1 !! k = Some j' ∧
        (j' = j ∨
         ∃ a, ev = ACTOR_GREETING a ∧ k = "actor_" +:+ a ∧
              emitted (step s ev).2
              = emitted s.2 ++ [COORDINATOR_DISPATCH_ACTOR_JOB a j']).
Proof.
  intros Hk. step_cases s ev;
    try (exists j; split; [exact Hk | by left]).
  - cbn -[String.append] in *. destruct (decide ("actor_" +:+ a0 = k)) as [<-|Hne].
    + exists (dispatched_job c0 a0 p0). rewrite lookup_insert_eq. split; [done|].
      right. by exists a0.
    + exists j. rewrite lookup_insert_ne by done. split; [done | by left].
  - destruct (counted_running_jobs c0 w0 d0) as [Ht _].
    exists j. rewrite Ht. split; [done | by left].
Qed.

(** C9. In every run of a coordinator from its creation, with a fixed
    non-empty list of active players: the table has one entry for each
    actor that greeted and no other, as many entries as there are
    distinct actors, and the entry of an actor is the job most recently
    dispatched to it.  No delivery of any event removes an entry: it
    stays, or is replaced by the job just dispatched to its actor. *)
Theorem running_jobs_table (l0 : L) (clk : nat → Q) (evs : list Event) :
  active_players_ids l0 ≠ [] →
  fixed_players L →
  let s := run evs (start l0 clk) in
  let actors := greetings_of evs in
  dom (_running_jobs s.1) = list_to_set ((λ a, "actor_" +:+ a) <$> actors)
  ∧ size (_running_jobs s.1) = length (remove_dups actors)
  ∧ (∀ a, _running_jobs s.1 !! ("actor_" +:+ a) = last_dispatch a (emitted s.2))
  ∧ (∀ (s' : Sys L) ev k j,
       _running_jobs s'.1 !! k = Some j →
       ∃ j', _running_jobs (step s' ev).1 !! k = Some j' ∧
             (j' = j ∨
              ∃ a, ev = ACTOR_GREETING a ∧ k = "actor_" +:+ a ∧
                   emitted (step s' ev).2
                   = emitted s'.2 ++ [COORDINATOR_DISPATCH_ACTOR_JOB a j'])).
Proof.
  intros Hne Hfixed s actors.
  destruct (dispatches_run l0 clk evs Hne Hfixed) as (_ & _ & _ & _ & _ & _ & Hdom).
  fold s actors in Hdom.
  split; [exact Hdom|]. split; [|split].
  - rewrite <- size_dom, Hdom.
    assert (list_to_set ((λ a, "actor_" +:+ a) <$> actors)
            =@{gset string} list_to_set ((λ a, "actor_" +:+ a) <$> remove_dups actors))
      as -> by (apply set_eq; intros k; rewrite !elem_of_list_to_set,
                  !list_elem_of_fmap; by setoid_rewrite elem_of_remove_dups).
    rewrite size_list_to_set, length_fmap; [done|].
    apply NoDup_fmap_2; [intros a a'; apply actor_key_inj | apply NoDup_remove_dups].
  - apply (table_agrees_run _ (start l0 clk)). split; [done|].
    intros k [j Hj]. cbn in Hj. by rewrite lookup_empty in Hj.
  - intros s' ev k j. apply running_jobs_step.
Qed.

(** *** A completion that comes before any greeting *)

Lemma counted_collect (c : LeagueCoordinator L) (w : World) (d : ActorData) :
  _total_collect_time (counted c w d).2.1 = _total_collect_time c
  ∧ _last_collect_time (counted c w d).2.1 = _last_collect_time c
  ∧ _total_recv_jobs (counted c w d).2.1 = _total_recv_jobs c.
Proof. frame_counted. Qed.

Lemma ungreeted_run (evs : list Event) :
  Forall not_greeting evs →
  ∀ s : Sys L, _total_collect_time s.1 = None →
  _total_collect_time (run evs s).1 = None
  ∧ (Forall not_completion evs → _last_collect_time s.1 = None →
     _last_collect_time (run evs s).1 = None).
Proof.
  induction 1 as [|ev evs Hev Hevs IH]; intros s Hs; [done|]. cbn.
  assert (_total_collect_time (step s ev).1 = None
          ∧ (not_completion ev → _last_collect_time s.1 = None →
             _last_collect_time (step s ev).1 = None)) as [Ht Hl].
  { step_cases s ev; cbn in *; try done; try congruence.
    destruct (counted_collect c0 w0 d0) as (-> & -> & _). done. }
  destruct (IH _ Ht) as [IH1 IH2]. split; [done|].
  intros [Hc Hcs]%Forall_cons_1 Hnone. apply IH2; [done|]. by apply Hl.
Qed.

(** C10. A completion delivered before any greeting was handled raises
    [TypeError]: the accumulated collect time is still [None] (and so is
    the time reference, unless an earlier completion already failed).
    The received-jobs counter is incremented all the same, the league is
    not told about the job and nothing is logged or published. *)
Theorem completion_before_greeting (l0 : L) (clk : nat → Q)
    (evs : list Event) (job : Job) :
  Forall not_greeting evs →
  let s := run evs (start l0 clk) in
  let r := handle (ACTOR_FINISH_JOB job) s in
  r.1 = Raise TypeError
  ∧ _total_collect_time s.1 = None
  ∧ (Forall not_completion evs → _last_collect_time s.1 = None)
  ∧ _total_recv_jobs r.2.1 = _total_recv_jobs s.1 + 1
  ∧ _total_recv_jobs r.2.1 ≠ _total_recv_jobs s.1
  ∧ league r.2.1 = league s.1
  ∧ scalars r.2.2 = scalars s.2
  ∧ info r.2.2 = info s.2.
Proof.
  intros Hevs s r.
  destruct (ungreeted_run evs Hevs (start l0 clk)) as [Ht Hl]; [done|].
  fold s in Ht, Hl. subst r. destruct s as [c w]. cbn [handle].
  rewrite job_refused_step by by left.
  cbn. repeat split; try done; [by intros ?; apply Hl | lia].
Qed.

End Dispatcher.

(** * Part V: the throughput tracker *)

Section Tracker.
Context {L : Type} `{BaseLeague L}.

(** The flag of the closed form: set before, or set by this call. *)
Lemma counted_flag (c : LeagueCoordinator L) (w : World) (d : ActorData) :
  _pre_collect_finished (counted c w d).2.1
  = _pre_collect_finished c || warmup_ends c.
Proof.
  assert (_pre_collect_finished (data_timed c w).1
          = _pre_collect_finished c || warmup_ends c) as Hflag
    by (cbn; by destruct (warmup_ends c), (_pre_collect_finished c)).
  rewrite <- Hflag. clear Hflag. unfold counted.
  destruct (_pre_collect_finished (data_timed c w).1) eqn:Hfin; [|done].
  destruct (Qeq_bool _ _ || Qeq_bool _ _); exact Hfin.
Qed.

Lemma counted_rate_scalars (c : LeagueCoordinator L) (w : World) (d : ActorData) :
  _pre_collect_finished (counted c w d).2.1 = false →
  scalars (counted c w d).2.2 = scalars w.
Proof.
  rewrite counted_flag. unfold counted.
  destruct (_pre_collect_finished (data_timed c w).1) eqn:Hfin.
  - cbn in Hfin. unfold warmup_ends. intros Hor.
    apply orb_false_elim in Hor as [Hc Hw]. rewrite Hc in *.
    cbn in Hw. rewrite andb_true_r in Hw. unfold warmup_ends in Hfin.
    rewrite Hc in Hfin. cbn in Hfin. rewrite andb_true_r, Hw in Hfin. done.
  - intros _. unfold data_timed, data_world. cbn. by destruct (_last_get_data_time c).
Qed.

(** Once set, the flag stays set. *)
Lemma flag_stays (s : Sys L) (ev : Event) :
  _pre_collect_finished s.1 = true → _pre_collect_finished (step s ev).1 = true.
Proof.
  step_cases s ev; try done. cbn. intros Hf. by rewrite counted_flag, Hf.
Qed.

(** Only a data-arrived call that finds the threshold reached sets it,
    and it restarts the accumulated time from zero. *)
Lemma flag_set (s : Sys L) (ev : Event) :
  _pre_collect_finished s.1 = false →
  _pre_collect_finished (step s ev).1 = true →
  ∃ d, ev = ACTOR_SEND_DATA d
       ∧ (inject_Z 600 <= _total_get_data_time s.1)%Q
       ∧ _total_get_data_time (step s ev).1 = (0 + data_elapsed s.1 s.2)%Q.
Proof.
  step_cases s ev; cbn; try congruence.
  intros Hf. rewrite counted_flag, Hf. cbn. intros Hw. exists d0.
  split; [done|]. unfold warmup_ends in Hw. rewrite Hf, andb_true_r in Hw.
  split; [by apply Qle_bool_iff|].
  assert (warmup_ends c0 = true) as Hw'
    by (unfold warmup_ends; by rewrite Hf, andb_true_r).
  unfold counted. cbn. rewrite Hw'. destruct (_ || _); cbn; by rewrite Hw'.
Qed.

(** While the flag is unset, the tracker has published nothing more. *)
Lemma rate_scalars_step (s : Sys L) (ev : Event) :
  _pre_collect_finished (step s ev).1 = false →
  rate_scalars (step s ev).2 = rate_scalars s.2.
Proof.
  unfold rate_scalars. step_cases s ev; cbn; try done.
  - intros _. rewrite List.filter_app. cbn. by rewrite app_nil_r.
  - intros Hf. by rewrite counted_rate_scalars.
Qed.

Lemma warmup_transitions_set (evs : list Event) (s : Sys L) :
  _pre_collect_finished s.1 = true → warmup_transitions evs s = 0%nat.
Proof.
  revert s. induction evs as [|ev evs IH]; intros s Hs; [done|]. cbn.
  rewrite Hs. cbn. apply IH. by apply flag_stays.
Qed.

Lemma flag_stays_run (evs : list Event) (s : Sys L) :
  _pre_collect_finished s.1 = true → _pre_collect_finished (run evs s).1 = true.
Proof.
  revert s. induction evs as [|ev evs IH]; intros s Hs; [done|].
  rewrite run_cons. apply IH. by apply flag_stays.
Qed.

Lemma warmup_transitions_unset (evs : list Event) (s : Sys L) :
  _pre_collect_finished s.1 = false →
  (warmup_transitions evs s ≤ 1)%nat
  ∧ (warmup_transitions evs s = 1%nat ↔ _pre_collect_finished (run evs s).1 = true).
Proof.
  revert s. induction evs as [|ev evs IH]; intros s Hs.
  - cbn. rewrite Hs. split; [lia | done].
  - rewrite run_cons. cbn [warmup_transitions]. rewrite Hs. cbn [negb andb].
    destruct (_pre_collect_finished (step s ev).1) eqn:Hs'.
    + rewrite warmup_transitions_set by done. split; [lia|]. split; [|done].
      intros _. by apply flag_stays_run.
    + destruct (IH _ Hs') as [Hle Hiff]. split; [lia|].
      rewrite <- Hiff. lia.
Qed.

Lemma unset_run (evs : list Event) (s : Sys L) :
  _pre_collect_finished (run evs s).1 = false →
  rate_scalars (run evs s).2 = rate_scalars s.2.
Proof.
  revert s. induction evs as [|ev evs IH]; intros s Hs; [done|].
  rewrite run_cons in *. rewrite IH by done. apply rate_scalars_step.
  destruct (_pre_collect_finished (step s ev).1) eqn:Hs'; [|done].
  by rewrite flag_stays_run in Hs.
Qed.

Lemma set_run (evs : list Event) (s : Sys L) :
  _pre_collect_finished s.1 = false →
  _pre_collect_finished (run evs s).1 = true →
  ∃ evs1 d evs2,
    evs = evs1 ++ ACTOR_SEND_DATA d :: evs2
    ∧ _pre_collect_finished (run evs1 s).1 = false
    ∧ (inject_Z 600 <= _total_get_data_time (run evs1 s).1)%Q.
Proof.
  revert s. induction evs as [|ev evs IH]; intros s Hs Hs'; [cbn in Hs'; congruence|].
  rewrite run_cons in Hs'.
  destruct (_pre_collect_finished (step s ev).1) eqn:Hstep.
  - destruct (flag_set s ev Hs Hstep) as (d & -> & Hle & _).
    by exists [], d, evs.
  - destruct (IH _ Hstep Hs') as (evs1 & d & evs2 & -> & Hf & Hle).
    by exists (ev :: evs1), d, evs2.
Qed.

(** A data-arrived call that finds the threshold reached leaves the flag
    set. *)
Lemma flag_set_by (s : Sys L) (d : ActorData) :
  (inject_Z 600 <= _total_get_data_time s.1)%Q →
  _pre_collect_finished (step s (ACTOR_SEND_DATA d)).1 = true.
Proof.
  intros Hle. destruct s as [c w]. unfold step. cbn [handle].
  rewrite count_data_step, counted_flag. unfold warmup_ends.
  change (60 * 10) with 600. apply Qle_bool_iff in Hle. cbn [fst] in Hle.
  rewrite Hle.
  by destruct (_pre_collect_finished c).
Qed.

(** What the tracker publishes when it does: two samples, both recorded
    at the accumulated data time. *)
Lemma rate_samples (c : LeagueCoordinator L) (w : World) (d : ActorData) :
  (counted c w d).1 = Return tt →
  _pre_collect_finished (counted c w d).2.1 = true →
  scalars (counted c w d).2.2
  = scalars w
    ++ [mkScalar "current_traj_speed-total_recv_trajs"
          (inject_Z (traj_count (train_data d)) / data_elapsed c w)%Q
          (_total_get_data_time (counted c w d).2.1);
        mkScalar "total_traj_speed-total_recv_trajs"
          (inject_Z (_traj_num (counted c w d).2.1)
           / _total_get_data_time (counted c w d).2.1)%Q
          (_total_get_data_time (counted c w d).2.1)].
Proof.
  rewrite counted_flag. unfold counted.
  destruct (_pre_collect_finished (data_timed c w).1) eqn:Hfin.
  - destruct (_ || _); [done|]. intros _ _. cbn. unfold data_world.
    destruct (_last_get_data_time c); cbn; by rewrite <- app_assoc.
  - cbn in Hfin. intros _ Hor. destruct (warmup_ends c); [done|].
    rewrite orb_false_r in Hor. congruence.
Qed.

(** What one data-arrived call does to the flag and to the accumulated
    time, in any state. *)
Lemma warmup_step (s : Sys L) (d : ActorData) :
  let s' := step s (ACTOR_SEND_DATA d) in
  _pre_collect_finished s'.1
  = _pre_collect_finished s.1
    || Qle_bool (inject_Z 600) (_total_get_data_time s.1)
  ∧ _total_get_data_time s'.1
    = ((if warmup_ends s.1 then 0 else _total_get_data_time s.1)
       + data_elapsed s.1 s.2)%Q.
Proof.
  destruct s as [c w]. unfold step. cbn [handle fst snd].
  rewrite count_data_step. split.
  - rewrite counted_flag. unfold warmup_ends. change (60 * 10) with 600.
    by destruct (_pre_collect_finished c), (Qle_bool _ _).
  - frame_counted.
Qed.

(** A first call that measures 600 seconds or more, then a second one. *)
Lemma warmup_in_two_calls (l0 : L) (clk : nat → Q) (d1 d2 : ActorData) :
  (inject_Z 600 <= clk 1%nat - clk 0%nat)%Q →
  let s1 := run [ACTOR_SEND_DATA d1] (start l0 clk) in
  let s2 := run [ACTOR_SEND_DATA d1; ACTOR_SEND_DATA d2] (start l0 clk) in
  _pre_collect_finished s1.1 = false
  ∧ rate_scalars s1.2 = []
  ∧ _total_get_data_time s1.1 = (0 + (clk 1%nat - clk 0%nat))%Q
  ∧ _pre_collect_finished s2.1 = true
  ∧ warmup_transitions [ACTOR_SEND_DATA d1; ACTOR_SEND_DATA d2] (start l0 clk)
    = 1%nat
  ∧ _total_get_data_time s2.1 = (0 + (clk 2%nat - clk 1%nat))%Q.
Proof.
  intros Hgap. cbv zeta. cbn [warmup_transitions].
  change (run [ACTOR_SEND_DATA d1; ACTOR_SEND_DATA d2] (start l0 clk))
    with (step (step (start l0 clk) (ACTOR_SEND_DATA d1)) (ACTOR_SEND_DATA d2)).
  change (run [ACTOR_SEND_DATA d1] (start l0 clk))
    with (step (start l0 clk) (ACTOR_SEND_DATA d1)).
  change (_pre_collect_finished (start l0 clk).1) with false.
  assert (step (start l0 clk) (ACTOR_SEND_DATA d1)
          = data_timed (__init__ l0) (mkWorld clk 0%nat [] [] [])) as Hs1.
  { unfold start, step. cbn [handle]. rewrite count_data_step. reflexivity. }
  set (s1 := step (start l0 clk) (ACTOR_SEND_DATA d1)) in *.
  assert (_pre_collect_finished s1.1 = false) as Hf1 by (by rewrite Hs1).
  assert (rate_scalars s1.2 = []) as Hr1 by (by rewrite Hs1).
  assert (_total_get_data_time s1.1 = (0 + (clk 1%nat - clk 0%nat))%Q) as Ht1
    by (by rewrite Hs1).
  assert (Qle_bool (inject_Z 600) (_total_get_data_time s1.1) = true) as Hle.
  { apply Qle_bool_iff. rewrite Ht1. lra. }
  assert (warmup_ends s1.1 = true) as Hw.
  { unfold warmup_ends. change (60 * 10) with 600. by rewrite Hle, Hf1. }
  assert (data_elapsed s1.1 s1.2 = (clk 2%nat - clk 1%nat)%Q) as He
    by (by rewrite Hs1).
  destruct (warmup_step s1 d2) as [Hf2 Ht2]. clearbody s1.
  rewrite Hf1, Hle in Hf2. rewrite Hw, He in Ht2.
  rewrite Hf1, Hf2, Ht2. done.
Qed.

(** C7. In every run of a coordinator from its creation: while the
    warm-up flag is unset the tracker has published no rate sample; the
    flag is set by the first data-arrived call that finds 600 seconds or
    more accumulated, and by nothing else; it goes from unset to set at
    most once, exactly once when such a call has happened, and never
    back; and the call that sets it restarts the accumulated time from
    zero.  Every data-arrived call, in any state, adds the time it
    measured to the accumulated time (restarted from zero by the call
    that ends the warm-up) and leaves the flag set exactly if it was set
    or 600 seconds were accumulated.  So the transition does happen: when
    the first call measures 600 seconds or more, it publishes nothing and
    accumulates them, and the second call sets the flag - the one
    transition of the run - and restarts the time at what it measured. *)
Theorem warmup_once (l0 : L) (clk : nat → Q) (evs : list Event) :
  let s := run evs (start l0 clk) in
  (_pre_collect_finished s.1 = false → rate_scalars s.2 = [])
  ∧ (_pre_collect_finished s.1 = true ↔
     ∃ evs1 d evs2,
       evs = evs1 ++ ACTOR_SEND_DATA d :: evs2
       ∧ (inject_Z 600 <= _total_get_data_time (run evs1 (start l0 clk)).1)%Q)
  ∧ (warmup_transitions evs (start l0 clk) ≤ 1)%nat
  ∧ (warmup_transitions evs (start l0 clk) = 1%nat
     ↔ _pre_collect_finished s.1 = true)
  ∧ (∀ (s' : Sys L) ev,
       _pre_collect_finished s'.1 = true →
       _pre_collect_finished (step s' ev).1 = true)
  ∧ (∀ (s' : Sys L) ev,
       _pre_collect_finished s'.1 = false →
       _pre_collect_finished (step s' ev).1 = true →
       ∃ d, ev = ACTOR_SEND_DATA d
            ∧ (inject_Z 600 <= _total_get_data_time s'.1)%Q
            ∧ _total_get_data_time (step s' ev).1
              = (0 + data_elapsed s'.1 s'.2)%Q)
  ∧ (∀ (s' : Sys L) d,
       let s'' := step s' (ACTOR_SEND_DATA d) in
       _pre_collect_finished s''.1
       = _pre_collect_finished s'.1
         || Qle_bool (inject_Z 600) (_total_get_data_time s'.1)
       ∧ _total_get_data_time s''.1
         = ((if warmup_ends s'.1 then 0 else _total_get_data_time s'.1)
            + data_elapsed s'.1 s'.2)%Q)
  ∧ (∀ d1 d2,
       (inject_Z 600 <= clk 1%nat - clk 0%nat)%Q →
       let s1 := run [ACTOR_SEND_DATA d1] (start l0 clk) in
       let s2 := run [ACTOR_SEND_DATA d1; ACTOR_SEND_DATA d2] (start l0 clk) in
       _pre_collect_finished s1.1 = false
       ∧ rate_scalars s1.2 = []
       ∧ _total_get_data_time s1.1 = (0 + (clk 1%nat - clk 0%nat))%Q
       ∧ _pre_collect_finished s2.1 = true
       ∧ warmup_transitions [ACTOR_SEND_DATA d1; ACTOR_SEND_DATA d2]
           (start l0 clk) = 1%nat
       ∧ _total_get_data_time s2.1 = (0 + (clk 2%nat - clk 1%nat))%Q).
Proof.
  intros s. subst s.
  destruct (warmup_transitions_unset evs (start l0 clk)) as [Hle Hiff]; [done|].
  split_and!.
  - intros Hs. by rewrite unset_run.
  - split.
    + intros Hs. destruct (set_run evs (start l0 clk)) as (evs1 & d & evs2 & ? & _ & ?);
        [done | done |]. by exists evs1, d, evs2.
    + intros (evs1 & d & evs2 & -> & Hreached).
      rewrite run_app, run_cons. apply flag_stays_run. by apply flag_set_by.
  - done.
  - done.
  - apply flag_stays.
  - apply flag_set.
  - apply warmup_step.
  - apply warmup_in_two_calls.
Qed.

(** *** A call with no time elapsed *)

(** C4, as the code has it. When no time has elapsed since the previous
    call, the division is not guarded: once the warm-up flag is set the
    handler raises [ZeroDivisionError] while it formats its log line.
    Nothing is logged or published by that call, so no infinity or NaN
    reaches the metrics; the time stamp and the trajectory counter are
    updated all the same.  Before the flag is set nothing is divided and
    the call returns. *)
Theorem zero_elapsed_raises (c : LeagueCoordinator L) (w : World) (d : ActorData) :
  (data_elapsed c w == 0)%Q →
  let r := handle (ACTOR_SEND_DATA d) (c, w) in
  scalars r.2.2 = scalars w
  ∧ info r.2.2 = info w
  ∧ r.1 = (if _pre_collect_finished r.2.1
           then Raise ZeroDivisionError else Return tt)
  ∧ _last_get_data_time r.2.1 = Some (clock w (time_calls (data_world c w)))
  ∧ _traj_num r.2.1
    = (if _pre_collect_finished r.2.1
       then _traj_num c + traj_count (train_data d) else _traj_num c).
Proof.
  intros Hz r. subst r. cbn [handle]. rewrite count_data_step.
  apply Qeq_bool_iff in Hz. unfold counted. rewrite Hz. cbn [orb].
  destruct (_pre_collect_finished (data_timed c w).1) eqn:Hfin; cbn;
    cbn in Hfin; rewrite Hfin; unfold data_world;
    by destruct (_last_get_data_time c).
Qed.

End Tracker.

(** * Part VI: the counters *)

Section Counters.
Context {L : Type} `{BaseLeague L}.
Variable clk : nat → Q.
Hypothesis clk_monotone : ∀ n, (clk n <= clk (S n))%Q.

Lemma timely_step (s : Sys L) (ev : Event) : timely clk s → timely clk (step s ev).
Proof.
  intros (Hclk & Hc & Hd). pose proof clk_monotone as Hm. unfold timely.
  step_cases s ev; cbn in *; rewrite ?Hclk.
  - split; [done|]. destruct (_last_collect_time c0) as [t0|] eqn:Hl; cbn.
    + split; [intros t [= <-]; by apply Hc | done].
    + split; [intros t [= <-]; apply Hm|].
      intros t Ht. specialize (Hd t Ht). specialize (Hm (time_calls w0)). lra.
  - split; [done|]. destruct (_last_collect_time c0) as [t0|] eqn:Hl; cbn.
    + split; [intros t [= <-]; by apply Hc | done].
    + split; [intros t [= <-]; apply Hm|].
      intros t Ht. specialize (Hd t Ht). specialize (Hm (time_calls w0)). lra.
  - split; [done|]. destruct (_last_collect_time c0) as [t0|] eqn:Hl; cbn.
    + split; [intros t [= <-]; by apply Hc | done].
    + split; [intros t [= <-]; apply Hm|].
      intros t Ht. specialize (Hd t Ht). specialize (Hm (time_calls w0)). lra.
  - done.
  - split; [done|]. split; [intros t [= <-]; apply Hm|].
    intros t Ht. specialize (Hd t Ht). specialize (Hm (time_calls w0)). lra.
  - split; [done|]. split; [intros t [= <-]; apply Hm|].
    intros t Ht. specialize (Hd t Ht). specialize (Hm (time_calls w0)). lra.
  - split; [done|]. split; [intros t [= <-]; apply Hm|].
    intros t Ht. specialize (Hd t Ht). specialize (Hm (time_calls w0)). lra.
  - assert (clock (counted c0 w0 d0).2.2 = clock w0
            ∧ time_calls (counted c0 w0 d0).2.2 = S (time_calls (data_world c0 w0))
            ∧ _last_get_data_time (counted c0 w0 d0).2.1
              = Some (clock w0 (time_calls (data_world c0 w0)))
            ∧ _last_collect_time (counted c0 w0 d0).2.1 = _last_collect_time c0)
      as (-> & -> & -> & ->) by frame_counted.
    rewrite Hclk. split; [done|]. split.
    + intros t Ht. specialize (Hc t Ht). unfold data_world.
      pose proof (Hm (time_calls w0)). pose proof (Hm (S (time_calls w0))).
      destruct (_last_get_data_time c0); cbn; lra.
    + intros t [= <-]. apply Hm.
  - done.
Qed.

Lemma timely_run (evs : list Event) (s : Sys L) : timely clk s → timely clk (run evs s).
Proof.
  revert s. induction evs as [|ev evs IH]; intros s Hs; [done|].
  apply IH. by apply timely_step.
Qed.

Lemma traj_count_nonneg (envs : list EnvTrajectories) : 0 ≤ traj_count envs.
Proof. induction envs; cbn; lia. Qed.

Lemma data_elapsed_nonneg (s : Sys L) : timely clk s → (0 <= data_elapsed s.1 s.2)%Q.
Proof.
  intros (Hclk & _ & Hd). unfold data_elapsed, data_world. rewrite Hclk.
  destruct (_last_get_data_time s.1) as [t|]; cbn.
  - specialize (Hd t eq_refl). lra.
  - pose proof (clk_monotone (time_calls s.2)). lra.
Qed.

(** One delivery does not decrease a counter, but for the accumulated
    data time at the end of the warm-up. *)
Lemma counters_step (s : Sys L) (ev : Event) :
  timely clk s →
  _total_send_jobs s.1 ≤ _total_send_jobs (step s ev).1
  ∧ _total_recv_jobs s.1 ≤ _total_recv_jobs (step s ev).1
  ∧ _traj_num s.1 ≤ _traj_num (step s ev).1
  ∧ opt_le (_total_collect_time s.1) (_total_collect_time (step s ev).1)
  ∧ ((_total_get_data_time s.1 <= _total_get_data_time (step s ev).1)%Q
     ∨ (_pre_collect_finished s.1 = false
        ∧ _pre_collect_finished (step s ev).1 = true
        ∧ _total_get_data_time (step s ev).1 = (0 + data_elapsed s.1 s.2)%Q)).
Proof.
  intros Hs. pose proof (data_elapsed_nonneg s Hs) as Hel.
  destruct Hs as (Hclk & Hc & Hd).
  assert (∀ o : option Q, opt_le o o) as Hrefl
    by (intros [x|]; cbn; [lra | done]).
  assert (∀ (o : option Q) x, opt_le o (Some (default x o))) as Hdef
    by (intros [y|] x; cbn; [lra | done]).
  step_cases s ev; cbn in *.
  - repeat split; try lia; try apply Hdef. left; lra.
  - repeat split; try lia; try apply Hdef. left; lra.
  - repeat split; try lia; try apply Hdef. left; lra.
  - repeat split; try lia; try apply Hrefl. left; lra.
  - repeat split; try lia; try apply Hrefl. left; lra.
  - rewrite Htotal. cbn. specialize (Hc _ Hold). rewrite Hclk.
    repeat split; try lia; [lra | left; lra].
  - rewrite Htotal. cbn. specialize (Hc _ Hold). rewrite Hclk.
    repeat split; try lia; [lra | left; lra].
  - assert (_total_send_jobs (counted c0 w0 d0).2.1 = _total_send_jobs c0
            ∧ _total_recv_jobs (counted c0 w0 d0).2.1 = _total_recv_jobs c0
            ∧ _total_collect_time (counted c0 w0 d0).2.1 = _total_collect_time c0)
      as (-> & -> & ->) by frame_counted.
    split; [lia|]. split; [lia|]. split; [|split; [apply Hrefl|]].
    + pose proof (traj_count_nonneg (train_data d0)). frame_counted; lia.
    + rewrite counted_flag.
      assert (_total_get_data_time (counted c0 w0 d0).2.1
              = ((if warmup_ends c0 then 0 else _total_get_data_time c0)
                 + data_elapsed c0 w0)%Q) as -> by frame_counted.
      destruct (warmup_ends c0) eqn:Hw.
      * right. unfold warmup_ends in Hw. apply andb_prop in Hw as [_ Hf].
        apply negb_true_iff in Hf. rewrite Hf. done.
      * left. lra.
  - repeat split; try lia; try apply Hrefl. left; lra.
Qed.

(** C5, as the code has it. With a clock that never goes back, no
    delivery in the life of a coordinator decreases the jobs sent, the
    jobs received, the trajectory count or the accumulated collect time
    (which is [None] until the first greeting).  The accumulated data
    time does not decrease either, except in the one call that ends the
    warm-up: that call sets the flag and restarts the time from zero. *)
Theorem counters_monotone (l0 : L) (evs : list Event) (ev : Event) :
  let s := run evs (start l0 clk) in
  let s' := step s ev in
  _total_send_jobs s.1 ≤ _total_send_jobs s'.1
  ∧ _total_recv_jobs s.1 ≤ _total_recv_jobs s'.1
  ∧ _traj_num s.1 ≤ _traj_num s'.1
  ∧ opt_le (_total_collect_time s.1) (_total_collect_time s'.1)
  ∧ ((_total_get_data_time s.1 <= _total_get_data_time s'.1)%Q
     ∨ (_pre_collect_finished s.1 = false
        ∧ _pre_collect_finished s'.1 = true
        ∧ _total_get_data_time s'.1 = (0 + data_elapsed s.1 s.2)%Q)).
Proof.
  intros s s'. apply counters_step. apply timely_run.
  split; [done|]. split; intros t Ht; discriminate Ht.
Qed.

End Counters.

(** * Part VII: the job-completion average *)

Section Completions.
Context {L : Type} `{BaseLeague L}.

Lemma accumulate_gaps_split (total ref c : Q) (cs : list Q) :
  (accumulate_gaps total ref (c :: cs)
   == total + (c - ref) + inter_completion_gaps (c :: cs))%Q.
Proof.
  revert total ref c. induction cs as [|c2 cs IH]; intros total ref c.
  - cbn. lra.
  - change (accumulate_gaps total ref (c :: c2 :: cs))
      with (accumulate_gaps (total + (c - ref)) c (c2 :: cs)).
    rewrite IH.
    change (inter_completion_gaps (c :: c2 :: cs))
      with ((c2 - c) + inter_completion_gaps (c2 :: cs))%Q.
    lra.
Qed.

Lemma reported_speeds_lookup (cs : list Q) :
  ∀ (total ref : Q) (k : Z) (i : nat) (x : Scalar),
  reported_speeds total ref k cs !! i = Some x →
  x = mkScalar "coordinator_collect_job_speed-total_recv_jobs"
        (accumulate_gaps total ref (take (S i) cs) / inject_Z (k + Z.of_nat (S i)))%Q
        (inject_Z (k + Z.of_nat (S i))).
Proof.
  induction cs as [|c cs IH]; intros total ref k i x; [done|].
  destruct i as [|i]; cbn [reported_speeds lookup list_lookup].
  - intros [= <-]. cbn. by rewrite take_0.
  - intros Hx. rewrite (IH _ _ _ _ _ Hx).
    change (take (S (S i)) (c :: cs)) with (c :: take (S i) cs).
    cbn [accumulate_gaps]. by replace (k + 1 + Z.of_nat (S i)) with (k + Z.of_nat (S (S i))) by lia.
Qed.

Lemma reported_speeds_length (cs : list Q) (total ref : Q) (k : Z) :
  length (reported_speeds total ref k cs) = length cs.
Proof. revert total ref k. induction cs; intros; cbn; [done | by f_equal]. Qed.

Lemma counted_collect_scalars (c : LeagueCoordinator L) (w : World) (d : ActorData) :
  collect_scalars (counted c w d).2.2 = collect_scalars w.
Proof.
  unfold collect_scalars.
  frame_counted; rewrite ?List.filter_app; cbn; by rewrite ?app_nil_r.
Qed.

(** Once the first greeting has set the reference, every completion adds
    its gap and publishes the average. *)
Lemma completions_run (evs : list Event) :
  ∀ (s : Sys L) (total ref : Q),
  _total_collect_time s.1 = Some total →
  _last_collect_time s.1 = Some ref →
  0 ≤ _total_recv_jobs s.1 →
  let cs := completion_times evs s in
  _total_collect_time (run evs s).1 = Some (accumulate_gaps total ref cs)
  ∧ _total_recv_jobs (run evs s).1 = _total_recv_jobs s.1 + Z.of_nat (length cs)
  ∧ collect_scalars (run evs s).2
    = collect_scalars s.2 ++ reported_speeds total ref (_total_recv_jobs s.1) cs.
Proof.
  induction evs as [|ev evs IH]; intros s total ref Ht Hr Hk.
  - cbn. rewrite app_nil_r, Z.add_0_r. done.
  - rewrite run_cons. cbn [completion_times]. revert IH.
    step_cases s ev; cbn [fst snd] in *; intros IH.
    + specialize (IH (greeting_refused c0 w0 a0) total ref). cbn in IH.
      rewrite Ht, Hr in IH. by apply IH.
    + specialize (IH (greeted c0 w0 a0 p0) total ref). cbn in IH.
      rewrite Ht, Hr in IH. by apply IH.
    + specialize (IH (greeting_faulted c0 w0 a0 p0) total ref). cbn in IH.
      rewrite Ht, Hr in IH. by apply IH.
    + by apply IH.
    + destruct Hnone; congruence.
    + rewrite Ht in Htotal. rewrite Hr in Hold.
      injection Htotal as <-. injection Hold as <-.
      specialize (IH (job_finished c0 w0 j0 total ref)
                    (total + (clock w0 (time_calls w0) - ref))%Q
                    (clock w0 (time_calls w0))).
      destruct IH as (IH1 & IH2 & IH3); [done | done | cbn; lia |].
      cbn [app]. cbn [accumulate_gaps length reported_speeds].
      rewrite IH1, IH2, IH3. cbn. split; [done|]. split; [lia|].
      unfold collect_scalars. cbn. rewrite List.filter_app. cbn.
      by rewrite <- app_assoc.
    + lia.
    + destruct (counted_collect c0 w0 d0) as (Hct & Hcl & Hcr).
      specialize (IH (counted c0 w0 d0).2 total ref).
      rewrite Hct, Hcl, Hcr, counted_collect_scalars in IH. by apply IH.
    + by apply IH.
Qed.

(** Before the first greeting and the first completion, the completion
    handler's state is as [__init__] left it. *)
Lemma idle_run (evs : list Event) :
  Forall not_greeting evs → Forall not_completion evs →
  ∀ s : Sys L,
  _last_collect_time s.1 = None → _total_collect_time s.1 = None →
  _last_collect_time (run evs s).1 = None
  ∧ _total_collect_time (run evs s).1 = None
  ∧ _total_recv_jobs (run evs s).1 = _total_recv_jobs s.1
  ∧ collect_scalars (run evs s).2 = collect_scalars s.2.
Proof.
  induction evs as [|ev evs IH]; intros Hg Hc s Hl Ht; [done|].
  apply Forall_cons_1 in Hg as [Hg Hgs]. apply Forall_cons_1 in Hc as [Hc Hcs].
  rewrite run_cons.
  assert (_last_collect_time (step s ev).1 = None
          ∧ _total_collect_time (step s ev).1 = None
          ∧ _total_recv_jobs (step s ev).1 = _total_recv_jobs s.1
          ∧ collect_scalars (step s ev).2 = collect_scalars s.2)
    as (Hl' & Ht' & <- & <-).
  { revert Hg Hc Hl Ht. step_cases s ev; cbn; try done.
    destruct (counted_collect c0 w0 d0) as (-> & -> & ->).
    by rewrite counted_collect_scalars. }
  by apply IH.
Qed.

Lemma clock_step (s : Sys L) (ev : Event) : clock (step s ev).2 = clock s.2.
Proof. step_cases s ev; try done. frame_counted. Qed.

Lemma clock_run (evs : list Event) (s : Sys L) : clock (run evs s).2 = clock s.2.
Proof.
  revert s. induction evs as [|ev evs IH]; intros s; [done|].
  by rewrite run_cons, IH, clock_step.
Qed.

(** Whatever becomes of the greeting, its first lines have run. *)
Lemma first_greeting (s : Sys L) (a : string) :
  _last_collect_time s.1 = None →
  _total_collect_time s.1 = None →
  let s1 := step s (ACTOR_GREETING a) in
  _last_collect_time s1.1 = Some (clock s.2 (time_calls s.2))
  ∧ _total_collect_time s1.1 = Some 0%Q
  ∧ _total_recv_jobs s1.1 = _total_recv_jobs s.1
  ∧ scalars s1.2 = scalars s.2.
Proof.
  intros Hl Ht s1. subst s1. unfold step.
  pose proof (handle_handled s (ACTOR_GREETING a)) as Hh.
  inversion Hh as
    [ c0 w0 a0 Hnil Hs He Ho Hs' | c0 w0 a0 p0 Hp0 Hfreq Hs He Ho Hs'
    | c0 w0 a0 p0 Hp0 Hpos Hfreq Hs He Ho Hs' | | | | | | ];
    subst s; cbn in Hl, Ht; cbn [handle] in *; rewrite <- Hs'; cbn;
    by rewrite Hl, Ht.
Qed.

(** C6, as the code has it. The time reference is set by the first
    greeting, not by the first completion.  When the first greeting comes
    before any completion, the [K]-th completion publishes, at step [K],
    the average [(first gap + the K-1 gaps between completions) / K],
    where the first gap runs from the first greeting to the first
    completion. *)
Theorem collect_speed_average (l0 : L) (clk : nat → Q) (a : string)
    (before evs : list Event) :
  Forall not_greeting before → Forall not_completion before →
  let s0 := run before (start l0 clk) in
  let greeted_at := clk (time_calls s0.2) in
  let s1 := step s0 (ACTOR_GREETING a) in
  let s := run evs s1 in
  let cs := completion_times evs s1 in
  _last_collect_time s0.1 = None
  ∧ _last_collect_time s1.1 = Some greeted_at
  ∧ _total_recv_jobs s.1 = Z.of_nat (length cs)
  ∧ length (collect_scalars s.2) = length cs
  ∧ ∀ (i : nat) (x : Scalar),
      collect_scalars s.2 !! i = Some x →
      ∃ c1, cs !! 0%nat = Some c1
        ∧ tag x = "coordinator_collect_job_speed-total_recv_jobs"
        ∧ global_step x = inject_Z (Z.of_nat (S i))
        ∧ (scalar_value x
           == ((c1 - greeted_at) + inter_completion_gaps (take (S i) cs))
              / inject_Z (Z.of_nat (S i)))%Q.
Proof.
  intros Hg Hc s0 greeted_at s1 s cs.
  destruct (idle_run before Hg Hc (start l0 clk)) as (Hl0 & Ht0 & Hr0 & Hs0);
    [done | done |]. fold s0 in Hl0, Ht0, Hr0, Hs0. cbn in Hr0, Hs0.
  assert (clock s0.2 = clk) as Hclk by apply clock_run.
  destruct (first_greeting s0 a Hl0 Ht0) as (Hl & Ht & Hr & Hs).
  fold s1 in Hl, Ht, Hr, Hs. rewrite Hclk in Hl. rewrite Hr0 in Hr.
  destruct (completions_run evs s1 0%Q greeted_at) as (Ht' & Hr' & Hs');
    [done | done | lia |].
  fold s cs in Ht', Hr', Hs'. rewrite Hr in Hr', Hs'.
  assert (collect_scalars s1.2 = []) as Hnil
    by (unfold collect_scalars in *; by rewrite Hs).
  rewrite Hnil in Hs'. cbn in Hs'.
  split; [done|]. split; [done|]. split; [by rewrite Hr'|].
  split; [by rewrite Hs', reported_speeds_length|].
  intros i x Hx. rewrite Hs' in Hx.
  destruct cs as [|c1 cs']; [done|].
  apply reported_speeds_lookup in Hx. subst x. cbn [tag global_step scalar_value].
  exists c1. split; [done|]. split; [done|]. split; [done|].
  change (take (S i) (c1 :: cs')) with (c1 :: take i cs').
  rewrite accumulate_gaps_split.
  apply Qdiv_comp; [lra | reflexivity].
Qed.

End Completions.

(** * Part VIII: concrete runs *)

(** Three players; four greetings among other events. *)
Lemma greetings_round_robin_witness :
  let job := mkJob "A" [] 0 false (Some "x") in
  let s := run [ACTOR_GREETING "x"; ACTOR_GREETING "y"; ACTOR_FINISH_JOB job;
                TICK; ACTOR_GREETING "x"; ACTOR_GREETING "z"]
               (start ["A"; "B"; "C"] (λ _, 0%Q)) in
  actor_of <$> emitted s.2 = ["x"; "y"; "x"; "z"]
  ∧ (job_no ∘ job_of) <$> emitted s.2 = [0; 1; 2; 3].
Proof.
  destruct (greetings_round_robin ["A"; "B"; "C"] (λ _, 0%Q)
              [ACTOR_GREETING "x"; ACTOR_GREETING "y";
               ACTOR_FINISH_JOB (mkJob "A" [] 0 false (Some "x"));
               TICK; ACTOR_GREETING "x"; ACTOR_GREETING "z"])
    as (Ha & Hno & _); [done | by repeat split |].
  split; [exact Ha | exact Hno].
Defined.

(** The coordinator about to hand out job number 20. *)
Lemma eval_flag_rule_witness :
  ∃ job,
    emitted (step (set_total_send_jobs 20 (__init__ ["A"; "B"]),
                   mkWorld (λ _, 0%Q) 0 [] [] [])
                  (ACTOR_GREETING "x")).2
    = [COORDINATOR_DISPATCH_ACTOR_JOB "x" job]
    ∧ job_no job = 20 ∧ is_eval job = true.
Proof.
  destruct (eval_flag_rule (set_total_send_jobs 20 (__init__ ["A"; "B"]))
              (mkWorld (λ _, 0%Q) 0 [] [] []) "x")
    as (_ & _ & p & job & _ & _ & He & Hn & _ & Hiff); [done | done |].
  exists job. split; [exact He|]. split; [exact Hn|].
  apply Hiff; [reflexivity|]. rewrite Hn. split; reflexivity.
Defined.

(** Which of the first 31 jobs are evaluation jobs. *)
Example eval_jobs_10_20_30 :
  let s := run (ACTOR_GREETING <$> replicate 31 "x")
               (start ["A"; "B"; "C"] (λ _, 0%Q)) in
  job_no <$> List.filter is_eval (job_of <$> emitted s.2) = [10; 20; 30].
Proof. vm_compute. reflexivity. Qed.

(** The scenario of the specification: three players, frequency 2. *)
Example eval_jobs_frequency_2 :
  let c := mkLeagueCoordinator ["A"; "B"; "C"] false 0 0 2 ∅ None None 0 None 0%Q false in
  let s := run (ACTOR_GREETING <$> replicate 6 "x") (c, mkWorld (λ _, 0%Q) 0 [] [] []) in
  (λ j, (launch_player j, job_no j, is_eval j)) <$> (job_of <$> emitted s.2)
  = [("A", 0, false); ("B", 1, false); ("C", 2, true);
     ("A", 3, false); ("B", 4, true); ("C", 5, false)].
Proof. vm_compute. reflexivity. Qed.

(** A league without players. *)
Lemma greeting_without_players_witness :
  let r := handle (ACTOR_GREETING "x")
                  (__init__ ([] : list string), mkWorld (λ _, 0%Q) 0 [] [] []) in
  r.1 = Raise ZeroDivisionError ∧ emitted r.2.2 = [] ∧ _running_jobs r.2.1 = ∅.
Proof.
  destruct (greeting_without_players (__init__ ([] : list string))
              (mkWorld (λ _, 0%Q) 0 [] [] []) "x")
    as (Hr & He & Ht & _); [reflexivity|].
  split; [exact Hr|]. split; [exact He | exact Ht].
Defined.

(** Two actors, three greetings: two entries. *)
Lemma running_jobs_table_witness :
  let s := run [ACTOR_GREETING "x"; ACTOR_GREETING "y"; TICK; ACTOR_GREETING "x"]
               (start ["A"; "B"] (λ _, 0%Q)) in
  size (_running_jobs s.1) = 2%nat
  ∧ job_no <$> _running_jobs s.1 !! "actor_x" = Some 2.
Proof.
  destruct (running_jobs_table ["A"; "B"] (λ _, 0%Q)
              [ACTOR_GREETING "x"; ACTOR_GREETING "y"; TICK; ACTOR_GREETING "x"])
    as (_ & Hsize & Hlast & _); [done | by repeat split |].
  split; [exact Hsize|]. cbv zeta.
  change "actor_x" with ("actor_" +:+ "x"). rewrite (Hlast "x"). reflexivity.
Defined.

(** A completion as the very first event. *)
Lemma completion_before_greeting_witness :
  let r := handle (ACTOR_FINISH_JOB (mkJob "A" [] 0 false (Some "x")))
                  (start ["A"] (λ _, 0%Q)) in
  r.1 = Raise TypeError ∧ _total_recv_jobs r.2.1 = 1 ∧ league r.2.1 = ["A"].
Proof.
  destruct (completion_before_greeting ["A"] (λ _, 0%Q) []
              (mkJob "A" [] 0 false (Some "x")))
    as (Hr & _ & _ & Hn & _ & Hl & _); [constructor|].
  split; [exact Hr|]. split; [exact Hn | exact Hl].
Defined.

(** A second batch that arrives at the reading the first one ended at. *)
Lemma zero_elapsed_raises_witness :
  let r := handle (ACTOR_SEND_DATA (batch 3)) (warmed (inject_Z 600)) in
  r.1 = Raise ZeroDivisionError ∧ scalars r.2.2 = [] ∧ _traj_num r.2.1 = 3.
Proof.
  destruct (zero_elapsed_raises (warmed (inject_Z 600)).1 (warmed (inject_Z 600)).2
              (batch 3))
    as (Hs & _ & Hr & _ & Hn); [reflexivity|].
  split; [exact Hr|]. split; [exact Hs | exact Hn].
Defined.

(** C4, as claimed, fails: after the warm-up, a batch that arrives with
    the clock where the previous call left it makes the handler raise
    [ZeroDivisionError]. *)
Lemma zero_elapsed_not_absorbed :
  let s := step (warmed (inject_Z 600)) (ACTOR_SEND_DATA (batch 3)) in
  (handle (ACTOR_SEND_DATA (batch 3)) (warmed (inject_Z 600))).1
  = Raise ZeroDivisionError
  ∧ (handle (ACTOR_SEND_DATA (batch 3)) (warmed (inject_Z 600))).1 ≠ Return tt
  ∧ (data_elapsed (warmed (inject_Z 600)).1 (warmed (inject_Z 600)).2 == 0)%Q
  ∧ _pre_collect_finished s.1 = true.
Proof. vm_compute. repeat split; done. Qed.

(** A first batch handled from time 0 to time 600, a second one at 601:
    the second call ends the warm-up - the one transition of the run -,
    restarts the accumulated time at the second it measured and
    publishes the two rates. *)
Lemma warmup_once_witness :
  let clk := readings [0%Q; inject_Z 600; inject_Z 601] (inject_Z 601) in
  let evs := [ACTOR_SEND_DATA (batch 3); ACTOR_SEND_DATA (batch 2)] in
  let s := run evs (start ["A"] clk) in
  (inject_Z 600 <= clk 1%nat - clk 0%nat)%Q
  ∧ _pre_collect_finished (run [ACTOR_SEND_DATA (batch 3)] (start ["A"] clk)).1
    = false
  ∧ _pre_collect_finished s.1 = true
  ∧ warmup_transitions evs (start ["A"] clk) = 1%nat
  ∧ (_total_get_data_time s.1 == 1)%Q
  ∧ length (rate_scalars s.2) = 2%nat.
Proof.
  intros clk evs s.
  assert (inject_Z 600 <= clk 1%nat - clk 0%nat)%Q as Hgap
    by (vm_compute; discriminate).
  destruct (warmup_once ["A"] clk evs) as (_ & _ & _ & _ & _ & _ & _ & Htwo).
  destruct (Htwo (batch 3) (batch 2) Hgap)
    as (Hf1 & _ & _ & Hf2 & Hn & Ht).
  split_and!; [exact Hgap | exact Hf1 | exact Hf2 | exact Hn | |].
  - unfold s, evs. rewrite Ht. vm_compute. reflexivity.
  - vm_compute. reflexivity.
Defined.

(** A greeting and a completion under a clock that stands still. *)
Lemma counters_monotone_witness :
  let s := run [ACTOR_GREETING "x"] (start ["A"] (λ _, 0%Q)) in
  let s' := step s (ACTOR_FINISH_JOB (mkJob "A" [] 0 false (Some "x"))) in
  _total_recv_jobs s.1 ≤ _total_recv_jobs s'.1
  ∧ opt_le (_total_collect_time s.1) (_total_collect_time s'.1).
Proof.
  destruct (counters_monotone (λ _, 0%Q) (λ n, Qle_refl 0) ["A"]
              [ACTOR_GREETING "x"]
              (ACTOR_FINISH_JOB (mkJob "A" [] 0 false (Some "x"))))
    as (_ & Hr & _ & Hc & _).
  split; [exact Hr | exact Hc].
Defined.

(** C5, as claimed, fails: the call that ends the warm-up takes the
    accumulated data time from 600 back to the second just elapsed. *)
Lemma data_time_restarts :
  let s := warmed (inject_Z 601) in
  let s' := step s (ACTOR_SEND_DATA (batch 3)) in
  (_total_get_data_time s.1 == inject_Z 600)%Q
  ∧ (_total_get_data_time s'.1 == 1)%Q
  ∧ ¬ (_total_get_data_time s.1 <= _total_get_data_time s'.1)%Q.
Proof. vm_compute. repeat split; done. Qed.

(** Why the clock must not go back: [time()] is the wall clock, and a
    completion that reads 5 after a greeting that read 10 takes the
    accumulated collect time from 0 to -5. *)
Example collect_time_under_a_clock_set_back :
  let job := mkJob "A" [] 0 false (Some "x") in
  let s := run [ACTOR_GREETING "x"]
               (start ["A"] (readings [inject_Z 10; inject_Z 5] (inject_Z 5))) in
  let s' := step s (ACTOR_FINISH_JOB job) in
  _total_collect_time s.1 = Some 0%Q
  ∧ Qred <$> _total_collect_time s'.1 = Some (-5 # 1)%Q.
Proof. vm_compute. split; reflexivity. Qed.

(** A tick, the first greeting at time 2, completions at times 5 and 9. *)
Lemma collect_speed_average_witness :
  let job := mkJob "A" [] 0 false (Some "x") in
  let clk := readings [inject_Z 2; inject_Z 5; inject_Z 9] (inject_Z 9) in
  let s := run [ACTOR_FINISH_JOB job; ACTOR_GREETING "y"; ACTOR_FINISH_JOB job]
               (step (run [TICK] (start ["A"] clk)) (ACTOR_GREETING "x")) in
  _total_recv_jobs s.1 = 2 ∧ length (collect_scalars s.2) = 2%nat.
Proof.
  destruct (collect_speed_average ["A"]
              (readings [inject_Z 2; inject_Z 5; inject_Z 9] (inject_Z 9)) "x"
              [TICK]
              [ACTOR_FINISH_JOB (mkJob "A" [] 0 false (Some "x"));
               ACTOR_GREETING "y";
               ACTOR_FINISH_JOB (mkJob "A" [] 0 false (Some "x"))])
    as (_ & _ & Hr & Hlen & _); [by repeat constructor | by repeat constructor |].
  split; [exact Hr | exact Hlen].
Defined.

(** The averages of that run: 3 seconds, then 3.5 seconds per job. *)
Example collect_speed_values :
  let job := mkJob "A" [] 0 false (Some "x") in
  let clk := readings [inject_Z 2; inject_Z 5; inject_Z 9] (inject_Z 9) in
  let s := run [ACTOR_FINISH_JOB job; ACTOR_GREETING "y"; ACTOR_FINISH_JOB job]
               (step (run [TICK] (start ["A"] clk)) (ACTOR_GREETING "x")) in
  Qred <$> (scalar_value <$> collect_scalars s.2) = [(3 # 1)%Q; (7 # 2)%Q].
Proof. vm_compute. reflexivity. Qed.

(** C6, as claimed, fails: a greeting at time 0 and a first completion at
    time 5 report an average of 5 seconds per job, though there is no gap
    between completions yet; and a completion that is the first event
    does not set the reference, it raises. *)
Lemma first_completion_counts_a_gap :
  let job := mkJob "A" [] 0 false (Some "x") in
  let s0 := start ["A"] (readings [0%Q; inject_Z 5] (inject_Z 5)) in
  let s := run [ACTOR_GREETING "x"; ACTOR_FINISH_JOB job] s0 in
  scalar_value <$> collect_scalars s.2 = [(5 # 1)%Q]
  ∧ completion_times [ACTOR_FINISH_JOB job] (step s0 (ACTOR_GREETING "x")) = [inject_Z 5]
  ∧ ¬ (5 # 1 == inter_completion_gaps [inject_Z 5] / inject_Z 1)%Q
  ∧ (handle (ACTOR_FINISH_JOB job) s0).1 = Raise TypeError.
Proof. vm_compute. repeat split; done. Qed.

(** C8. After the warm-up, a batch of three trajectories that arrives one
    second after the previous call: both samples are recorded at step 1,
    the accumulated data time, while the trajectory count is 3. *)
Theorem rate_samples_step_is_data_time :
  let s := step (warmed (inject_Z 601)) (ACTOR_SEND_DATA (batch 3)) in
  _traj_num s.1 = 3
  ∧ tag <$> scalars s.2
    = ["current_traj_speed-total_recv_trajs"; "total_traj_speed-total_recv_trajs"]
  ∧ global_step <$> scalars s.2
    = [_total_get_data_time s.1; _total_get_data_time s.1]
  ∧ (_total_get_data_time s.1 == 1)%Q
  ∧ Forall (λ x, ¬ (global_step x == inject_Z (_traj_num s.1))%Q) (scalars s.2).
Proof.
  vm_compute. repeat split; try done.
  repeat constructor; done.
Qed.

(** * Part IX: more of the coordinator *)

Section Housekeeping.
Context {L : Type} `{BaseLeague L}.

(** X1. The lock of the greeting handler is free after every delivery,
    whatever its outcome: a greeting that raises inside the locked
    region (no active player) releases it all the same. *)
Theorem lock_released (l0 : L) (clk : nat → Q) (evs : list Event) :
  _lock (run evs (start l0 clk)).1 = false
  ∧ (∀ (s : Sys L) ev, _lock s.1 = false → _lock (step s ev).1 = false)
  ∧ (∀ (c : LeagueCoordinator L) w a,
       active_players_ids (league c) = [] →
       (handle (ACTOR_GREETING a) (c, w)).1 = Raise ZeroDivisionError
       ∧ _lock (step (c, w) (ACTOR_GREETING a)).1 = false).
Proof.
  assert (∀ (s : Sys L) ev, _lock s.1 = false → _lock (step s ev).1 = false)
    as Hstep.
  { intros s ev. step_cases s ev; try done. intros Hl.
    assert (_lock (counted c0 w0 d0).2.1 = _lock c0) as -> by frame_counted.
    done. }
  split; [|split; [exact Hstep|]].
  - induction evs as [|ev evs IH] using rev_ind; [done|].
    rewrite run_snoc. by apply Hstep.
  - intros c w a Hnil. unfold step. cbn [handle].
    by rewrite greeting_refused_step.
Qed.

Lemma dispatch_log_step (s : Sys L) (ev : Event) :
  dispatch_log_ok s → dispatch_log_ok (step s ev).
Proof.
  intros (Hf & Hn & Hno & Ha). unfold dispatch_log_ok.
  step_cases s ev; cbn [fst snd] in *; try done.
  - cbn. rewrite length_app, !fmap_app, Nat.add_1_r, seq_S, fmap_app, <- Hno.
    cbn. unfold dispatched_job at 1. cbn. rewrite mark_eval_job_no. cbn.
    rewrite Hn. split_and!; try done; [lia|].
    apply Forall_app. split; [done|]. by constructor.
  - congruence.
  - assert (emitted (counted c0 w0 d0).2.2 = emitted w0
            ∧ _total_send_jobs (counted c0 w0 d0).2.1 = _total_send_jobs c0
            ∧ _eval_frequency (counted c0 w0 d0).2.1 = _eval_frequency c0)
      as (-> & -> & ->) by frame_counted.
    done.
Qed.

Lemma dispatch_log_run (l0 : L) (clk : nat → Q) (evs : list Event) :
  dispatch_log_ok (run evs (start l0 clk)).
Proof.
  induction evs as [|ev evs IH] using rev_ind.
  - by split_and!.
  - rewrite run_snoc. by apply dispatch_log_step.
Qed.

(** X2. Whatever the league does (its players may change, or be none at
    times), the jobs dispatched in a run carry the sequence numbers
    0, 1, 2, ... in the order of their dispatch, and the counter of sent
    jobs is the number of dispatches: a greeting that is refused for want
    of players takes no number. *)
Theorem sequence_numbers_have_no_gap (l0 : L) (clk : nat → Q) (evs : list Event) :
  let s := run evs (start l0 clk) in
  _total_send_jobs s.1 = Z.of_nat (length (emitted s.2))
  ∧ (job_no ∘ job_of) <$> emitted s.2
    = Z.of_nat <$> seq 0 (length (emitted s.2))
  ∧ (∀ a, active_players_ids (league s.1) = [] →
       _total_send_jobs (step s (ACTOR_GREETING a)).1 = _total_send_jobs s.1
       ∧ emitted (step s (ACTOR_GREETING a)).2 = emitted s.2)
  ∧ (∀ a, active_players_ids (league s.1) ≠ [] →
       ∃ job, emitted (step s (ACTOR_GREETING a)).2
              = emitted s.2 ++ [COORDINATOR_DISPATCH_ACTOR_JOB a job]
              ∧ job_no job = _total_send_jobs s.1
              ∧ _total_send_jobs (step s (ACTOR_GREETING a)).1
                = _total_send_jobs s.1 + 1).
Proof.
  intros s. destruct (dispatch_log_run l0 clk evs) as (Hf & Hn & Hno & _).
  fold s in Hf, Hn, Hno. split; [done|]. split; [done|]. split.
  - intros a Hnil. destruct s as [c w]. unfold step. cbn [handle].
    by rewrite greeting_refused_step.
  - intros a Hne. destruct s as [c w]. cbn [fst snd] in *.
    destruct (greeting_step c w a) as (p & _ & Hstep); [done | right; lia |].
    unfold step. cbn [handle]. rewrite Hstep. exists (dispatched_job c a p).
    split; [done|]. split; [|done].
    unfold dispatched_job. cbn. by rewrite mark_eval_job_no.
Qed.

End Housekeeping.

Section Bookkeeping.
Context {L : Type} `{BaseLeague L}.

Lemma last_dispatch_elem (a : string) (j : Job) (es : list Emitted) :
  last_dispatch a es = Some j → COORDINATOR_DISPATCH_ACTOR_JOB a j ∈ es.
Proof.
  induction es as [|e es IH]; [done|]. cbn.
  destruct (last_dispatch a es) as [j'|].
  - intros [= ->]. apply list_elem_of_further. by apply IH.
  - destruct (decide (actor_of e = a)) as [<-|]; [|done].
    intros [= <-]. destruct e. apply list_elem_of_here.
Qed.

(** X3. In every run, a job on the bus names the actor it was dispatched
    to, and so does every entry of the running-jobs table: the entry
    under the key of an actor is a job that was dispatched to that actor,
    it carries the actor's id, and its sequence number is below the
    counter of sent jobs. *)
Theorem stored_job_names_its_actor (l0 : L) (clk : nat → Q) (evs : list Event) :
  let s := run evs (start l0 clk) in
  Forall (λ e, actor_id (job_of e) = Some (actor_of e)) (emitted s.2)
  ∧ ∀ k j, _running_jobs s.1 !! k = Some j →
      ∃ a, k = "actor_" +:+ a
           ∧ actor_id j = Some a
           ∧ COORDINATOR_DISPATCH_ACTOR_JOB a j ∈ emitted s.2
           ∧ 0 ≤ job_no j < _total_send_jobs s.1.
Proof.
  intros s. destruct (dispatch_log_run l0 clk evs) as (_ & Hn & Hno & Ha).
  fold s in Hn, Hno, Ha. split; [exact Ha|].
  assert (table_agrees s) as [Hlast Hkey].
  { apply table_agrees_run. split; [done|].
    intros k [j Hj]. cbn in Hj. by rewrite lookup_empty in Hj. }
  intros k j Hk. destruct (Hkey k) as [a ->]; [by eexists|].
  rewrite Hlast in Hk. apply last_dispatch_elem in Hk.
  exists a. split; [done|].
  rewrite Forall_forall in Ha. specialize (Ha _ Hk). cbn in Ha.
  split; [done|]. split; [done|].
  apply list_elem_of_lookup in Hk as [i Hi].
  assert (((job_no ∘ job_of) <$> emitted s.2) !! i = Some (job_no j)) as Hj
    by by rewrite list_lookup_fmap, Hi.
  rewrite Hno, list_lookup_fmap in Hj.
  destruct (seq 0 (length (emitted s.2)) !! i) as [n|] eqn:Hseq; [|done].
  apply lookup_seq in Hseq as [-> Hlt]. injection Hj as <-. lia.
Qed.

(** X5. The counter of received jobs counts the completions delivered,
    whether their handler went through or raised. *)
Theorem received_jobs_counts_deliveries (l0 : L) (clk : nat → Q)
    (evs : list Event) :
  _total_recv_jobs (run evs (start l0 clk)).1
  = Z.of_nat (length (completions_of evs)).
Proof.
  induction evs as [|ev evs IH] using rev_ind; [done|].
  rewrite run_snoc. unfold completions_of in *. rewrite omap_app, length_app.
  revert IH. generalize (run evs (start l0 clk)). intros s IH.
  step_cases s ev; cbn [fst snd] in *; cbn; try lia.
  assert (_total_recv_jobs (counted c0 w0 d0).2.1 = _total_recv_jobs c0)
    as -> by frame_counted.
  lia.
Qed.

Lemma recv_jobs_step (s : Sys L) (ev : Event) :
  0 ≤ _total_recv_jobs s.1 → 0 ≤ _total_recv_jobs (step s ev).1.
Proof.
  intros Hn. step_cases s ev; cbn [fst snd] in *; cbn; try lia.
  destruct (counted_collect c0 w0 d0) as (_ & _ & ->). done.
Qed.

Lemma recv_jobs_run (evs : list Event) (s : Sys L) :
  0 ≤ _total_recv_jobs s.1 → 0 ≤ _total_recv_jobs (run evs s).1.
Proof.
  revert s. induction evs as [|ev evs IH]; intros s Hs; [done|].
  rewrite run_cons. apply IH. by apply recv_jobs_step.
Qed.

Lemma collect_ready_step (s : Sys L) (ev : Event) :
  collect_ready s → collect_ready (step s ev).
Proof.
  intros (Hl & Ht & Hn). unfold collect_ready.
  step_cases s ev; cbn [fst snd] in *; cbn; try done.
  - split_and!; [by eexists | done | lia].
  - split_and!; [by eexists | by eexists | lia].
  - split_and!; [by eexists | by eexists | lia].
  - destruct (counted_collect c0 w0 d0) as (-> & -> & ->). done.
Qed.

Lemma collect_ready_run (evs : list Event) (s : Sys L) :
  collect_ready s → collect_ready (run evs s).
Proof.
  revert s. induction evs as [|ev evs IH]; intros s Hs; [done|].
  rewrite run_cons. apply IH. by apply collect_ready_step.
Qed.

Lemma greeting_makes_ready (s : Sys L) (a : string) :
  0 ≤ _total_recv_jobs s.1 → collect_ready (step s (ACTOR_GREETING a)).
Proof.
  intros Hn. unfold step, collect_ready.
  pose proof (handle_handled s (ACTOR_GREETING a)) as Hh.
  inversion Hh as
    [ c0 w0 a0 Hnil Hs He Ho Hs' | c0 w0 a0 p0 Hp0 Hfreq Hs He Ho Hs'
    | c0 w0 a0 p0 Hp0 Hpos Hfreq Hs He Ho Hs' | | | | | | ];
    subst s; cbn [handle] in *; rewrite <- Hs'; cbn in *;
    split_and!; by try eexists.
Qed.

(** X4. Once a greeting has been handled - even one that was refused for
    want of players - no completion raises any more: every later
    completion is counted, publishes one sample at the new count and
    hands its job to the league's payoff update. *)
Theorem completion_after_greeting (l0 : L) (clk : nat → Q)
    (before evs : list Event) (a : string) (job : Job) :
  let s := run (before ++ ACTOR_GREETING a :: evs) (start l0 clk) in
  let s' := step s (ACTOR_FINISH_JOB job) in
  (handle (ACTOR_FINISH_JOB job) s).1 = Return tt
  ∧ league s'.1 = update_payoff (league s.1) job
  ∧ _total_recv_jobs s'.1 = _total_recv_jobs s.1 + 1
  ∧ ∃ x, scalars s'.2 = scalars s.2 ++ [x]
         ∧ is_collect_sample x (_total_recv_jobs s'.1).
Proof.
  intros s s'.
  assert (collect_ready s) as ([old Hl] & [total Ht] & Hn).
  { subst s. rewrite run_app, run_cons. apply collect_ready_run.
    apply greeting_makes_ready. by apply recv_jobs_run. }
  subst s'. destruct s as [c w]. cbn [fst snd] in *.
  unfold step. cbn [handle].
  rewrite (job_step c w job total old) by (done || lia).
  cbn. split_and!; try done. eexists. split; [done|]. by split.
Qed.

End Bookkeeping.

Section Separation.
Context {L : Type} `{BaseLeague L}.

Lemma counted_frame (c : LeagueCoordinator L) (w : World) (d : ActorData) :
  league (counted c w d).2.1 = league c
  ∧ _lock (counted c w d).2.1 = _lock c
  ∧ _total_send_jobs (counted c w d).2.1 = _total_send_jobs c
  ∧ _eval_frequency (counted c w d).2.1 = _eval_frequency c
  ∧ clock (counted c w d).2.2 = clock w.
Proof. frame_counted. Qed.

(** X6. The three functions of the coordinator do not touch each other's
    state.  A delivery that is not a data-arrived call leaves the
    throughput tracker as it was (trajectory count, time stamp,
    accumulated time, flag, rate samples); one that is not a greeting
    leaves the dispatcher as it was (counter of sent jobs, evaluation
    frequency, table, lock, bus); one that is neither a greeting nor a
    completion leaves the completion statistics as they were.  A
    data-arrived call does not reach the league, and a middleware call
    changes nothing at all. *)
Theorem handlers_keep_to_their_fields (s : Sys L) (ev : Event) :
  (not_data ev → tracker_state (step s ev) = tracker_state s)
  ∧ (not_greeting ev → dispatcher_state (step s ev) = dispatcher_state s)
  ∧ (not_greeting ev → not_completion ev →
     collect_state (step s ev) = collect_state s)
  ∧ (∀ d, ev = ACTOR_SEND_DATA d → league (step s ev).1 = league s.1)
  ∧ (ev = TICK → step s ev = s).
Proof.
  unfold tracker_state, dispatcher_state, collect_state, rate_scalars.
  step_cases s ev; cbn [fst snd not_data not_greeting not_completion];
    split_and!; try done; try (intros; discriminate); cbn;
    rewrite ?List.filter_app, ?app_nil_r; try done.
  - intros _. destruct (counted_running_jobs c0 w0 d0) as (-> & ->).
    by destruct (counted_frame c0 w0 d0) as (_ & -> & -> & -> & _).
  - intros _ _. destruct (counted_collect c0 w0 d0) as (-> & -> & ->).
    by rewrite counted_collect_scalars.
  - intros d _. by destruct (counted_frame c0 w0 d0) as (-> & _).
Qed.

Lemma counted_traj_num (c : LeagueCoordinator L) (w : World) (d : ActorData) :
  _traj_num (counted c w d).2.1
  = if _pre_collect_finished (counted c w d).2.1
    then _traj_num c + traj_count (train_data d) else _traj_num c.
Proof.
  unfold counted.
  destruct (_pre_collect_finished (data_timed c w).1) eqn:Hfin.
  - destruct (Qeq_bool _ _ || Qeq_bool _ _); cbn; cbn in Hfin; by rewrite Hfin.
  - cbn. cbn in Hfin. by rewrite Hfin.
Qed.

Lemma traj_num_step (s : Sys L) (ev : Event) :
  _traj_num (step s ev).1
  = match ev with
    | ACTOR_SEND_DATA d =>
        if _pre_collect_finished (step s ev).1
        then _traj_num s.1 + traj_count (train_data d) else _traj_num s.1
    | _ => _traj_num s.1
    end.
Proof. step_cases s ev; try done. cbn. apply counted_traj_num. Qed.

Lemma traj_num_unset (evs : list Event) (l0 : L) (clk : nat → Q) :
  _pre_collect_finished (run evs (start l0 clk)).1 = false →
  _traj_num (run evs (start l0 clk)).1 = 0.
Proof.
  induction evs as [|ev evs IH] using rev_ind; [done|].
  rewrite run_snoc. intros Hf.
  assert (_pre_collect_finished (run evs (start l0 clk)).1 = false) as Hf0.
  { destruct (_pre_collect_finished (run evs (start l0 clk)).1) eqn:Hb; [|done].
    by rewrite (flag_stays _ ev Hb) in Hf. }
  rewrite traj_num_step, Hf. rewrite (IH Hf0). by destruct ev.
Qed.

Lemma traj_num_set (evs : list Event) (s : Sys L) :
  _pre_collect_finished s.1 = true →
  _traj_num (run evs s).1 = _traj_num s.1 + batches_count (batches_of evs).
Proof.
  revert s. induction evs as [|ev evs IH]; intros s Hs; [cbn; lia|].
  rewrite run_cons, IH by by apply flag_stays.
  rewrite traj_num_step, (flag_stays _ ev Hs).
  destruct ev; cbn -[step run traj_count]; fold (batches_of evs); lia.
Qed.

(** X7. Trajectories are counted from the call that ends the warm-up on.
    In a run from the creation of the coordinator the count is 0 while
    the flag is unset; a data-arrived call adds the trajectories of its
    batch exactly when it leaves the flag set (a call that raises adds
    them too); and from a state with the flag set, a run adds the
    trajectories of all the batches delivered in it, whatever else is
    delivered in between. *)
Theorem trajectories_counted_once_warm (l0 : L) (clk : nat → Q)
    (evs : list Event) :
  let s := run evs (start l0 clk) in
  (_pre_collect_finished s.1 = false → _traj_num s.1 = 0)
  ∧ (∀ d, let s' := step s (ACTOR_SEND_DATA d) in
       _traj_num s'.1
       = if _pre_collect_finished s'.1
         then _traj_num s.1 + traj_count (train_data d) else _traj_num s.1)
  ∧ (∀ more, _pre_collect_finished s.1 = true →
       _traj_num (run more s).1
       = _traj_num s.1 + batches_count (batches_of more)).
Proof.
  intros s. split_and!.
  - apply traj_num_unset.
  - intros d. apply (traj_num_step s (ACTOR_SEND_DATA d)).
  - intros more Hs. by apply traj_num_set.
Qed.

Lemma data_origin_snoc (evs : list Event) (ev : Event) (s : Sys L) :
  data_origin (evs ++ [ev]) s
  = match data_origin evs s with
    | Some o => Some o
    | None =>
      match ev with
      | ACTOR_SEND_DATA _ =>
          Some (clock (run evs s).2 (time_calls (run evs s).2))
      | _ => None
      end
    end.
Proof.
  revert s. induction evs as [|e evs IH]; intros s.
  - by destruct ev.
  - rewrite run_cons. destruct e; cbn [app data_origin]; try apply IH. done.
Qed.

Lemma data_origin_none (evs : list Event) (s : Sys L) :
  data_origin evs s = None → batches_of evs = [].
Proof.
  revert s. induction evs as [|e evs IH]; intros s; [done|].
  destruct e; cbn [data_origin]; try apply IH. done.
Qed.

Lemma warmup_span_run (l0 : L) (clk : nat → Q) (evs : list Event) :
  let s := run evs (start l0 clk) in
  _pre_collect_finished s.1 = false →
  match _last_get_data_time s.1 with
  | None => data_origin evs (start l0 clk) = None
            ∧ _total_get_data_time s.1 = 0%Q
  | Some t =>
      ∃ o, data_origin evs (start l0 clk) = Some o
           ∧ (_total_get_data_time s.1 == t - o)%Q
  end.
Proof.
  cbn zeta. induction evs as [|ev evs IH] using rev_ind; [done|].
  rewrite run_snoc, data_origin_snoc. intros Hf.
  assert (_pre_collect_finished (run evs (start l0 clk)).1 = false) as Hf0.
  { destruct (_pre_collect_finished (run evs (start l0 clk)).1) eqn:Hb; [|done].
    by rewrite (flag_stays _ ev Hb) in Hf. }
  specialize (IH Hf0).
  revert Hf Hf0 IH. generalize (data_origin evs (start l0 clk)).
  generalize (run evs (start l0 clk)). intros s o.
  step_cases s ev; cbn [fst snd]; intros Hf Hf0 IH; cbn;
    try (destruct (_last_get_data_time c0) as [t|];
         [destruct IH as (o' & -> & IH); by exists o'
         | destruct IH as [-> IH]; done]).
  rewrite counted_flag in Hf. apply orb_false_elim in Hf as [_ Hw].
  unfold counted. cbn. rewrite Hw, Hf0. cbn.
  unfold data_elapsed, data_world. rewrite ?Hw.
  destruct (_last_get_data_time c0) as [t|]; cbn.
  - destruct IH as (o' & -> & IH). exists o'. split; [done|]. lra.
  - destruct IH as [-> IH]. eexists. split; [done|]. rewrite IH. lra.
Qed.

(** X8. During the warm-up, under a clock whose readings binary64
    subtracts and adds without rounding (as the model does), the
    accumulated data time is the span from the reading the first
    data-arrived call took as its reference to the latest reading: the
    elapsed times telescope, whatever else is delivered in between.
    Before the first data-arrived call there is no reading and the
    accumulated time is 0. *)
Theorem warmup_time_is_a_span (l0 : L) (clk : nat → Q) (evs : list Event) :
  binary_grid clk →
  let s := run evs (start l0 clk) in
  _pre_collect_finished s.1 = false →
  match _last_get_data_time s.1 with
  | None => batches_of evs = [] ∧ _total_get_data_time s.1 = 0%Q
  | Some t =>
      ∃ o, data_origin evs (start l0 clk) = Some o
           ∧ (_total_get_data_time s.1 == t - o)%Q
  end.
Proof.
  intros _ s Hf. pose proof (warmup_span_run l0 clk evs Hf) as Hrun.
  fold s in Hrun. destruct (_last_get_data_time s.1); [done|].
  destruct Hrun as [Ho Ht]. split; [|done]. by apply data_origin_none in Ho.
Qed.

End Separation.

Section Clocks.
Context {L : Type} `{BaseLeague L}.
Variable clk : nat → Q.

Lemma counted_times (c : LeagueCoordinator L) (w : World) (d : ActorData) :
  clock (counted c w d).2.2 = clock w
  ∧ time_calls (counted c w d).2.2 = S (time_calls (data_world c w))
  ∧ _last_get_data_time (counted c w d).2.1
    = Some (clock w (time_calls (data_world c w)))
  ∧ _total_get_data_time (counted c w d).2.1
    = ((if warmup_ends c then 0 else _total_get_data_time c)
       + data_elapsed c w)%Q.
Proof. frame_counted. Qed.

Lemma Qdiv_nonneg (a b : Q) : (0 <= a)%Q → (0 < b)%Q → (0 <= a / b)%Q.
Proof. intros Ha Hb. apply Qle_shift_div_l; [done | lra]. Qed.

Section Running.
Hypothesis clk_increasing : ∀ n, (clk n < clk (S n))%Q.

Lemma data_elapsed_pos (s : Sys L) : ticking clk s → (0 < data_elapsed s.1 s.2)%Q.
Proof.
  intros (Hclk & Hd & _). unfold data_elapsed, data_world. rewrite Hclk.
  destruct (_last_get_data_time s.1) as [t|]; cbn.
  - specialize (Hd t eq_refl). lra.
  - pose proof (clk_increasing (time_calls s.2)). lra.
Qed.

Lemma ticking_step (s : Sys L) (ev : Event) : ticking clk s → ticking clk (step s ev).
Proof.
  intros Hs. pose proof (data_elapsed_pos s Hs) as Hel.
  destruct Hs as (Hclk & Hd & Ht). pose proof clk_increasing as Hm.
  unfold ticking.
  step_cases s ev; cbn [fst snd] in *; try done.
  1-3: cbn; split_and!; try done; intros t Hl; specialize (Hd t Hl);
       destruct (_last_collect_time c0); cbn; try done;
       specialize (Hm (time_calls w0)); rewrite <- ?Hclk in *; lra.
  1-3: cbn; split_and!; try done; intros t Hl; specialize (Hd t Hl);
       specialize (Hm (time_calls w0)); rewrite <- ?Hclk in *; lra.
  destruct (counted_times c0 w0 d0) as (-> & -> & -> & ->).
  split_and!; [done | |].
  - intros t [= <-]. rewrite Hclk. apply Hm.
  - destruct (warmup_ends c0); lra.
Qed.

Lemma ticking_run (evs : list Event) (s : Sys L) : ticking clk s → ticking clk (run evs s).
Proof.
  revert s. induction evs as [|ev evs IH]; intros s Hs; [done|].
  apply IH. by apply ticking_step.
Qed.

(** X9. Under a clock whose readings strictly increase, a data-arrived
    call never raises, at any point of any run: the time it measures and
    the time it has accumulated are positive, so neither division of the
    log line and of the samples is by zero. *)
Theorem data_calls_return_under_a_running_clock (l0 : L) (evs : list Event)
    (d : ActorData) :
  let s := run evs (start l0 clk) in
  (handle (ACTOR_SEND_DATA d) s).1 = Return tt
  ∧ (0 < data_elapsed s.1 s.2)%Q
  ∧ (0 < _total_get_data_time (step s (ACTOR_SEND_DATA d)).1)%Q.
Proof.
  intros s.
  assert (ticking clk s) as Hs.
  { apply ticking_run. split_and!; [done | intros t Ht; discriminate Ht | done]. }
  pose proof (data_elapsed_pos s Hs) as Hel. destruct Hs as (_ & _ & Ht).
  assert (0 < _total_get_data_time (step s (ACTOR_SEND_DATA d)).1)%Q as Hpos.
  { unfold step. destruct s as [c w]. cbn [handle]. rewrite count_data_step.
    destruct (counted_times c w d) as (_ & _ & _ & ->).
    cbn [fst snd] in *. destruct (warmup_ends c); lra. }
  split_and!; [|done|done].
  revert Hpos. unfold step. destruct s as [c w]. cbn [handle fst snd] in *.
  rewrite count_data_step. destruct (counted_times c w d) as (_ & _ & _ & ->).
  intros Hpos. unfold counted.
  destruct (_pre_collect_finished (data_timed c w).1); [|done].
  assert (Qeq_bool (data_elapsed c w) 0 = false) as ->.
  { apply not_true_iff_false. rewrite Qeq_bool_iff. lra. }
  assert (Qeq_bool (_total_get_data_time (data_timed c w).1) 0 = false) as ->.
  { apply not_true_iff_false. rewrite Qeq_bool_iff. cbn. lra. }
  done.
Qed.

End Running.

Section Monotone.
Hypothesis clk_monotone : ∀ n, (clk n <= clk (S n))%Q.

Lemma nonneg_step (s : Sys L) (ev : Event) :
  timely clk s → nonneg_state s → nonneg_state (step s ev).
Proof.
  intros Hs (Hn & Ht & Hc & Hr & Hx).
  assert (0 <= data_elapsed s.1 s.2)%Q as Hel.
  { destruct Hs as (Hclk & _ & Hd). unfold data_elapsed, data_world.
    rewrite Hclk. destruct (_last_get_data_time s.1) as [t|]; cbn.
    - specialize (Hd t eq_refl). lra.
    - pose proof (clk_monotone (time_calls s.2)). lra. }
  destruct Hs as (Hclk & Hl & _). unfold nonneg_state.
  step_cases s ev; cbn [fst snd] in *; try done.
  1-3: cbn; split_and!; try done; intros t [= <-];
       destruct (_total_collect_time c0) as [t0|]; cbn; [by apply Hc | lra].
  - cbn. split_and!; try done. lia.
  - specialize (Hc _ Htotal). specialize (Hl _ Hold).
    assert (0 < inject_Z (_total_recv_jobs c0 + 1))%Q as Hpos
      by (rewrite <- (Zlt_Qlt 0); lia).
    cbn. rewrite ?Hclk. split_and!; try done; [intros t [= <-]; lra | lia |].
    apply Forall_app. split; [done|]. apply Forall_singleton. cbn.
    split; [|done]. unfold collect_job_speed. rewrite Hclk.
    apply Qdiv_nonneg; [lra | done].
  - specialize (Hc _ Htotal). specialize (Hl _ Hold).
    cbn. rewrite ?Hclk. split_and!; try done; [intros t [= <-]; lra | lia].
  - pose proof (traj_count_nonneg (train_data d0)) as Hd.
    destruct (counted_collect c0 w0 d0) as (-> & _ & ->).
    destruct (counted_times c0 w0 d0) as (_ & _ & _ & ->).
    assert (0 <= (if warmup_ends c0 then 0 else _total_get_data_time c0)
                 + data_elapsed c0 w0)%Q as Ht'
      by (destruct (warmup_ends c0); lra).
    rewrite counted_traj_num.
    split_and!; try done.
    + destruct (_pre_collect_finished (counted c0 w0 d0).2.1); lia.
    + assert (Forall (λ x, (0 <= scalar_value x)%Q ∧ (0 < global_step x)%Q)
                (scalars (data_world c0 w0))) as Hx'
        by (unfold data_world; by destruct (_last_get_data_time c0)).
      unfold counted.
      destruct (_pre_collect_finished (data_timed c0 w0).1); [|done].
      destruct (Qeq_bool (data_elapsed c0 w0) 0) eqn:He; [done|].
      destruct (Qeq_bool (_total_get_data_time (data_timed c0 w0).1) 0) eqn:Hz;
        [done|].
      apply not_true_iff_false in He, Hz. rewrite Qeq_bool_iff in He, Hz.
      cbn in Hz. cbn -[data_elapsed warmup_ends].
      apply Forall_app. split; [apply Forall_app; split; [done|]|];
        apply Forall_singleton; cbn -[data_elapsed warmup_ends];
        (split; [apply Qdiv_nonneg|]; try lra;
         rewrite <- ?(Zle_Qle 0); lia).
Qed.

Lemma nonneg_run (evs : list Event) (s : Sys L) :
  timely clk s → nonneg_state s → nonneg_state (run evs s).
Proof.
  revert s. induction evs as [|ev evs IH]; intros s Ht Hs; [done|].
  rewrite run_cons. apply IH; [by apply timely_step | by apply nonneg_step].
Qed.

(** X10. Under a clock that never goes back, every sample the
    coordinator publishes in a run - the two rates of the throughput
    tracker and the average of the completions - has a value that is not
    negative and a step that is positive, and no counter or accumulated
    time is negative. *)
Theorem samples_are_rates_at_positive_steps (l0 : L) (evs : list Event) :
  let s := run evs (start l0 clk) in
  Forall (λ x, (0 <= scalar_value x)%Q ∧ (0 < global_step x)%Q) (scalars s.2)
  ∧ 0 ≤ _traj_num s.1
  ∧ (0 <= _total_get_data_time s.1)%Q
  ∧ (∀ t, _total_collect_time s.1 = Some t → (0 <= t)%Q).
Proof.
  intros s.
  assert (nonneg_state s) as (Hn & Ht & Hc & _ & Hx).
  { apply nonneg_run.
    - split; [done|]. split; intros t Hd; discriminate Hd.
    - by split_and!. }
  done.
Qed.

End Monotone.
End Clocks.

(** ** Concrete runs *)

(** Two batches with a greeting in between, under a clock that reads 0,
    5, 7 and 12: the accumulated data time is 12 - 0. *)
Lemma warmup_time_is_a_span_witness :
  let evs := [ACTOR_SEND_DATA (batch 1); ACTOR_GREETING "x";
              ACTOR_SEND_DATA (batch 2)] in
  let clk := readings [0%Q; inject_Z 5; inject_Z 7; inject_Z 12] (inject_Z 12) in
  let s := run evs (start ["A"] clk) in
  binary_grid clk
  ∧ _pre_collect_finished s.1 = false
  ∧ _last_get_data_time s.1 = Some (inject_Z 12)
  ∧ ∃ o, data_origin evs (start ["A"] clk) = Some o
         ∧ (_total_get_data_time s.1 == inject_Z 12 - o)%Q.
Proof.
  intros evs clk s.
  assert (binary_grid clk) as Hgrid.
  { exists 0%nat. split; [lia|]. intros n. unfold clk, readings.
    destruct n as [|[|[|[|n]]]];
      [exists 0 | exists 5 | exists 7 | exists 12 | exists 12];
      (split; [lia|]); try (vm_compute; reflexivity).
    destruct n; vm_compute; reflexivity. }
  assert (_pre_collect_finished s.1 = false) as Hf by (vm_compute; reflexivity).
  split; [exact Hgrid|]. split; [exact Hf|]. split; [vm_compute; reflexivity|].
  exact (warmup_time_is_a_span ["A"] clk evs Hgrid Hf).
Defined.

(** Three batches under a clock that reads 0, 1, 2, ...: none raises. *)
Lemma data_calls_return_under_a_running_clock_witness :
  let clk := λ n : nat, inject_Z (Z.of_nat n) in
  let s := run [ACTOR_SEND_DATA (batch 1); ACTOR_SEND_DATA (batch 2)]
               (start ["A"] clk) in
  (∀ n, (clk n < clk (S n))%Q)
  ∧ (handle (ACTOR_SEND_DATA (batch 3)) s).1 = Return tt.
Proof.
  intros clk s.
  assert (∀ n, (clk n < clk (S n))%Q) as Hclk
    by (intros n; unfold clk; rewrite <- Zlt_Qlt; lia).
  split; [exact Hclk|].
  exact (proj1 (data_calls_return_under_a_running_clock clk Hclk ["A"]
                  [ACTOR_SEND_DATA (batch 1); ACTOR_SEND_DATA (batch 2)]
                  (batch 3))).
Defined.

(** A warm-up, a batch, a greeting and two completions under a clock
    that stands still at times: every sample is a rate at a positive
    step. *)
Lemma samples_are_rates_at_positive_steps_witness :
  let clk := readings [0%Q; inject_Z 600; inject_Z 601; inject_Z 601;
                       inject_Z 604] (inject_Z 604) in
  let s := run [ACTOR_SEND_DATA (batch 3); ACTOR_SEND_DATA (batch 2);
                ACTOR_GREETING "x";
                ACTOR_FINISH_JOB (mkJob "A" [] 0 false (Some "x"))]
               (start ["A"] clk) in
  (∀ n, (clk n <= clk (S n))%Q)
  ∧ length (scalars s.2) = 3%nat
  ∧ Forall (λ x, (0 <= scalar_value x)%Q ∧ (0 < global_step x)%Q) (scalars s.2).
Proof.
  intros clk s.
  assert (∀ n, (clk n <= clk (S n))%Q) as Hclk.
  { intros n. unfold clk, readings.
    do 5 (destruct n as [|n]; [vm_compute; discriminate|]).
    destruct n; cbn; lra. }
  split; [exact Hclk|]. split; [vm_compute; reflexivity|].
  exact (proj1 (samples_are_rates_at_positive_steps clk Hclk ["A"] _)).
Defined.

Section Greetings.
Context {L : Type} `{BaseLeague L}.

(** X11. In the life of a coordinator the evaluation frequency stays the
    10 set at creation, so of the two moduli of the greeting handler only
    the one by the number of active players can be by zero: a greeting
    raises [ZeroDivisionError] exactly when the league has no active
    player, and the modulo by the frequency returns for every sequence
    number.  Failures of the league itself (a call that hands out no
    job) are of another kind and are not covered here. *)
Theorem greeting_divides_by_zero_only_without_players (l0 : L) (clk : nat → Q)
    (evs : list Event) (a : string) :
  let s := run evs (start l0 clk) in
  _eval_frequency s.1 = 10
  ∧ ((handle (ACTOR_GREETING a) s).1 = Raise ZeroDivisionError
     ↔ active_players_ids (league s.1) = [])
  ∧ (∀ n, py_mod (S:=Sys L) n (_eval_frequency s.1) s
          = (Return (n `mod` 10), s)).
Proof.
  intros s. destruct (dispatch_log_run l0 clk evs) as (Hf & _).
  fold s in Hf. split; [done|]. split.
  - destruct s as [c w]. cbn [handle fst snd] in *. split.
    + intros Hraise.
      destruct (decide (active_players_ids (league c) = [])) as [Hnil|Hne];
        [done|].
      destruct (greeting_step c w a Hne) as (p & _ & Hret); [right; lia|].
      rewrite Hret in Hraise. discriminate Hraise.
    + intros Hnil. by rewrite greeting_refused_step.
  - intros n. unfold py_mod. by rewrite Hf.
Qed.

End Greetings.

(** * Part X: the process-group helper *)

Section Groups.
Import Helper.
Local Open Scope helper_scope.
Context `{Runtime}.

Lemma block_seq (gs k : nat) :
  block (Z.of_nat gs) (Z.of_nat k) = Z.of_nat <$> seq (k * gs) gs.
Proof.
  unfold block, py_range. rewrite Nat2Z.id, <- list_fmap_compose.
  transitivity (Z.of_nat <$> (Nat.add (k * gs) <$> seq 0 gs)).
  - rewrite <- list_fmap_compose. apply list_fmap_ext. intros i x _. cbn. lia.
  - by rewrite fmap_add_seq, Nat.add_0_r.
Qed.

Lemma slice_arange (N m n : nat) :
  (m + n ≤ N)%nat →
  take n (drop m (Z.of_nat <$> seq 0 N)) = Z.of_nat <$> seq m n.
Proof.
  intros Hle. rewrite <- fmap_drop, <- fmap_take, drop_seq, take_seq.
  f_equal. f_equal; lia.
Qed.

(** [np.split] of the world into [n] runs of [gs] ranks. *)
Lemma np_split_arange (n gs : nat) (p : Process) :
  (0 < n)%nat →
  np_split (np_arange (Z.of_nat (n * gs))) (Z.of_nat n) p
  = (Return ((λ k, block (Z.of_nat gs) (Z.of_nat k)) <$> seq 0 n), p).
Proof.
  intros Hn. unfold np_split, np_arange, py_mod, bind.
  rewrite Nat2Z.id, length_fmap, length_seq.
  destruct (Z.of_nat n =? 0) eqn:H0; [lia|]. cbn.
  assert (Z.of_nat (n * gs) `mod` Z.of_nat n = 0) as ->.
  { rewrite Nat2Z.inj_mul, Z.mul_comm. apply Z_mod_mult. }
  cbn. destruct (Z.of_nat n <=? 0) eqn:H1; [lia|].
  assert (Z.to_nat (Z.of_nat (n * gs) `div` Z.of_nat n) = gs) as ->.
  { rewrite Nat2Z.inj_mul, Z.mul_comm, Z.div_mul by lia. lia. }
  rewrite Nat2Z.id. unfold ret. f_equal. f_equal.
  apply list_fmap_ext. intros i k Hk. apply lookup_seq in Hk as [-> Hk].
  rewrite block_seq. cbn. apply slice_arange. nia.
Qed.

Lemma py_getitem_lookup {A} (l : list A) (i : nat) (x : A) (p : Process) :
  l !! i = Some x → py_getitem l (Z.of_nat i) p = (Return x, p).
Proof.
  intros Hx. pose proof (lookup_lt_Some _ _ _ Hx) as Hlt. unfold py_getitem.
  destruct (Z.of_nat i <? 0) eqn:H0; [lia|]. cbn.
  destruct (Z.of_nat i <? 0) eqn:H1; [lia|].
  destruct (Z.of_nat (length l) <=? Z.of_nat i) eqn:H2; [lia|]. cbn.
  by rewrite Nat2Z.id, Hx.
Qed.

(** Lines 268-269: one [dist.new_group] for each slice, in order. *)
Lemma groups_loop (rank_list : list (list Z)) (j : nat) :
  ∀ (i : nat) (acc : list Group) (p : Process),
  (i + j = length rank_list)%nat →
  for_each (Z.of_nat <$> seq i j) acc
    (λ i groups,
       rs <- py_getitem rank_list i ;;
       g <- dist_new_group rs ;;
       ret (groups ++ [g])) p
  = (Return (acc ++ (mkGroup <$> drop i rank_list)),
     {| environ := environ p;
        calls := calls p ++ (new_group <$> drop i rank_list) |}).
Proof.
  induction j as [|j IH]; intros i acc p Hij.
  - rewrite drop_ge by lia. cbn. rewrite !app_nil_r. by destruct p.
  - destruct (lookup_lt_is_Some_2 rank_list i) as [rs Hrs]; [lia|].
    cbn [seq fmap list_fmap for_each]. unfold bind at 1. unfold bind at 1.
    rewrite (py_getitem_lookup _ _ _ _ Hrs). cbn.
    rewrite IH by lia. rewrite (drop_S _ _ _ Hrs). cbn.
    by rewrite <- !app_assoc.
Qed.

(** The world split evenly into [n] groups of [gs] ranks: all the groups
    are created, then one is picked by the rank. *)
Lemma simple_group_split_groups (n gs : nat) (rank : Z) (p : Process) :
  (0 < n)%nat → (0 < gs)%nat →
  simple_group_split (Z.of_nat (n * gs)) rank (Z.of_nat n) p
  = py_getitem ((λ k, mkGroup (block (Z.of_nat gs) (Z.of_nat k))) <$> seq 0 n)
      (rank `div` Z.of_nat gs)
      {| environ := environ p;
         calls := calls p
                  ++ ((λ k, new_group (block (Z.of_nat gs) (Z.of_nat k)))
                        <$> seq 0 n) |}.
Proof.
  intros Hn Hgs.
  unfold simple_group_split. unfold bind at 1.
  rewrite np_split_arange by done. unfold bind at 1.
  unfold py_range. rewrite Nat2Z.id.
  rewrite groups_loop by (by rewrite length_fmap, length_seq).
  rewrite drop_0, app_nil_l, <- !list_fmap_compose.
  unfold bind at 1, py_floordiv at 1.
  destruct (Z.of_nat n =? 0) eqn:H0; [lia|]. cbn [ret].
  assert (Z.of_nat (n * gs) `div` Z.of_nat n = Z.of_nat gs) as ->
    by (rewrite Nat2Z.inj_mul, Z.mul_comm, Z.div_mul; lia).
  unfold bind, py_floordiv.
  destruct (Z.of_nat gs =? 0) eqn:H1; [lia|]. done.
Qed.

Lemma simple_group_split_run (n gs : nat) (rank : Z) (p : Process) :
  (0 < n)%nat → 0 ≤ rank < Z.of_nat (n * gs) →
  simple_group_split (Z.of_nat (n * gs)) rank (Z.of_nat n) p
  = (Return (mkGroup (block (Z.of_nat gs) (rank `div` Z.of_nat gs))),
     {| environ := environ p;
        calls := calls p
                 ++ ((λ k, new_group (block (Z.of_nat gs) (Z.of_nat k)))
                       <$> seq 0 n) |}).
Proof.
  intros Hn Hrank. assert (0 < gs)%nat as Hgs by nia.
  rewrite simple_group_split_groups by done.
  assert (0 ≤ rank `div` Z.of_nat gs < Z.of_nat n) as Hk.
  { split; [apply Z.div_pos; lia|]. apply Z.div_lt_upper_bound; lia. }
  rewrite <- (Z2Nat.id (rank `div` Z.of_nat gs)) at 1 by lia.
  erewrite py_getitem_lookup; [done|].
  rewrite list_lookup_fmap, lookup_seq_lt by lia. cbn.
  by rewrite Z2Nat.id by lia.
Qed.

(** An even split in [Z]: [ws] is [n] groups of [gs] ranks. *)
Lemma even_split (ws ng : Z) :
  0 < ng → 0 < ws → ws `mod` ng = 0 →
  0 < ws `div` ng
  ∧ ws = Z.of_nat (Z.to_nat ng * Z.to_nat (ws `div` ng))
  ∧ ng = Z.of_nat (Z.to_nat ng)
  ∧ ws `div` ng = Z.of_nat (Z.to_nat (ws `div` ng)).
Proof.
  intros Hng Hws Hmod.
  assert (ws = ng * (ws `div` ng)) as Hex by (apply Z.div_exact; lia).
  assert (0 < ws `div` ng) by nia. split_and!; try lia.
Qed.

Lemma blocks_concat (n gs : nat) :
  concat ((λ k, block (Z.of_nat gs) (Z.of_nat k)) <$> seq 0 n)
  = np_arange (Z.of_nat (n * gs)).
Proof.
  unfold np_arange. rewrite Nat2Z.id.
  induction n as [|n IH]; [done|].
  rewrite seq_S, fmap_app, concat_app, IH. cbn.
  rewrite app_nil_r, block_seq, <- fmap_app. f_equal.
  replace (gs + n * gs)%nat with (n * gs + gs)%nat by lia.
  by rewrite seq_app.
Qed.

Lemma elem_of_block (gs k r : Z) :
  0 < gs → r ∈ block gs k ↔ k * gs ≤ r < k * gs + gs.
Proof.
  intros Hgs. unfold block, py_range. rewrite <- list_fmap_compose.
  rewrite list_elem_of_fmap. split.
  - intros (i & -> & Hi%elem_of_seq). cbn. lia.
  - intros Hr. exists (Z.to_nat (r - k * gs)). cbn. split; [lia|].
    apply elem_of_seq. lia.
Qed.

(** X12. When the world divides evenly into [num_groups] groups and the
    rank is in the world, [simple_group_split] creates the groups of
    consecutive ranks, in order - the same calls whatever the rank, which
    is what [dist.new_group] asks of the processes - and returns the one
    the rank belongs to.  The groups created partition the world: put
    end to end they are [0 .. world_size-1]. *)
Theorem simple_group_split_partitions_the_world (ws rank ng : Z) (p : Process) :
  0 < ng → ws `mod` ng = 0 → 0 ≤ rank < ws →
  let gs := ws `div` ng in
  let r := simple_group_split ws rank ng p in
  r.1 = Return (mkGroup (block gs (rank `div` gs)))
  ∧ rank ∈ block gs (rank `div` gs)
  ∧ length (block gs (rank `div` gs)) = Z.to_nat gs
  ∧ environ r.2 = environ p
  ∧ calls r.2 = calls p ++ ((λ k, new_group (block gs k)) <$> py_range ng)
  ∧ concat (block gs <$> py_range ng) = np_arange ws.
Proof.
  intros Hng Hmod Hrank gs r.
  destruct (even_split ws ng) as (Hgs & Hws & Hn & Hg); [lia..|].
  fold gs in Hgs, Hws, Hg. subst r.
  assert (0 ≤ rank < Z.of_nat (Z.to_nat ng * Z.to_nat gs)) as Hrank' by lia.
  pose proof (simple_group_split_run (Z.to_nat ng) (Z.to_nat gs) rank p
                ltac:(lia) Hrank') as Hrun.
  rewrite <- Hws, <- Hn, <- Hg in Hrun. rewrite Hrun. cbn [fst snd environ calls].
  unfold py_range. rewrite <- !list_fmap_compose.
  split_and!; try done.
  - apply elem_of_block; [done|].
    pose proof (Z.mul_div_le rank gs Hgs).
    pose proof (Z.mul_succ_div_gt rank gs Hgs). lia.
  - unfold block, py_range. by rewrite !length_fmap, length_seq.
  - transitivity (np_arange (Z.of_nat (Z.to_nat ng * Z.to_nat gs)));
      [|by rewrite <- Hws].
    rewrite <- blocks_concat. by rewrite <- Hg.
Qed.

(** X13. [get_group(group_size)] with a size that divides the world
    returns the group of the [group_size] consecutive ranks among which
    the rank of the process lies - the ranks with the same quotient by
    [group_size] - after creating every group of the world in order; with
    no size given, the group is the whole world. *)
Theorem get_group_is_the_block_of_the_rank (gs : Z) (p : Process) :
  let ws := dist_world_size p in
  let rank := dist_rank p in
  0 < gs → ws `mod` gs = 0 → 0 ≤ rank < ws →
  (get_group (Some gs) p).1 = Return (mkGroup (block gs (rank `div` gs)))
  ∧ calls (get_group (Some gs) p).2
    = calls p ++ ((λ k, new_group (block gs k)) <$> py_range (ws `div` gs))
  ∧ (∀ r, r ∈ block gs (rank `div` gs) ↔ 0 ≤ r < ws ∧ r `div` gs = rank `div` gs)
  ∧ (get_group None p).1 = Return (mkGroup (np_arange ws))
  ∧ calls (get_group None p).2 = calls p ++ [new_group (np_arange ws)].
Proof.
  intros ws rank Hgs Hmod Hrank.
  assert (ws = gs * (ws `div` gs)) as Hex by (apply Z.div_exact; lia).
  assert (0 < ws `div` gs) as Hn by nia.
  assert (get_group (Some gs) p
          = simple_group_split (Z.of_nat (Z.to_nat (ws `div` gs) * Z.to_nat gs))
              rank (Z.of_nat (Z.to_nat (ws `div` gs))) p) as Hsome.
  { unfold get_group, get_rank, get_world_size, gets, bind, py_mod, py_floordiv.
    fold ws rank. cbn [default from_option id].
    destruct (gs =? 0) eqn:H0; [lia|]. cbn [ret]. rewrite Hmod. cbn.
    f_equal; lia. }
  assert (get_group None p
          = simple_group_split (Z.of_nat (1 * Z.to_nat ws)) rank (Z.of_nat 1) p)
    as Hnone.
  { unfold get_group, get_rank, get_world_size, gets, bind, py_mod, py_floordiv.
    fold ws rank. cbn [default from_option id].
    destruct (ws =? 0) eqn:H0; [lia|]. cbn [ret].
    rewrite Z.mod_same by lia. cbn. rewrite Z.div_same by lia.
    f_equal. lia. }
  rewrite Hsome, Hnone, !simple_group_split_run by lia.
  cbn [fst snd calls]. rewrite !Z2Nat.id by lia.
  split_and!.
  - done.
  - f_equal. unfold py_range. rewrite <- list_fmap_compose. done.
  - intros r. rewrite elem_of_block by done.
    pose proof (Z.mul_div_le rank gs Hgs).
    pose proof (Z.mul_succ_div_gt rank gs Hgs).
    pose proof (Z.mul_div_le r gs Hgs).
    pose proof (Z.mul_succ_div_gt r gs Hgs).
    split.
    + intros Hr.
      assert (rank `div` gs + 1 ≤ ws `div` gs) as Hk
        by (pose proof (Z.div_lt_upper_bound rank gs (ws `div` gs)); lia).
      assert ((rank `div` gs + 1) * gs ≤ ws `div` gs * gs) as Hkgs
        by (apply Z.mul_le_mono_nonneg_r; lia).
      assert (0 ≤ rank `div` gs * gs) as Hk0
        by (apply Z.mul_nonneg_nonneg; [apply Z.div_pos|]; lia).
      split; [lia|]. symmetry.
      apply Z.div_unique_pos with (r - rank `div` gs * gs); lia.
    + intros [Hr Heq]. rewrite <- Heq. lia.
  - rewrite Z.div_small by lia. unfold block, np_arange, py_range.
    do 2 f_equal. rewrite <- list_fmap_compose.
    apply list_fmap_ext. intros i k _. cbn. lia.
  - cbn. do 3 f_equal. unfold block, np_arange, py_range.
    rewrite <- list_fmap_compose.
    apply list_fmap_ext. intros i k _. cbn. lia.
Qed.

(** X14. [get_group] creates no group unless the size is positive and
    divides the world: a size of zero raises [ZeroDivisionError] in the
    assertion itself, a size that does not divide the world fails the
    assertion, and a negative divisor passes it and is refused by
    [np.split]; the process is left as it was. *)
Theorem get_group_rejects_uneven_sizes (gs : Z) (p : Process) :
  let ws := dist_world_size p in
  0 < ws → ¬ (0 < gs ∧ ws `mod` gs = 0) →
  get_group (Some gs) p
  = (Raise (if gs =? 0 then ZeroDivisionError
            else if ws `mod` gs =? 0 then ValueError else AssertionError),
     p).
Proof.
  intros ws Hws Hbad.
  unfold get_group, get_rank, get_world_size, gets, bind, py_mod. fold ws.
  cbn [default from_option id]. destruct (gs =? 0) eqn:H0; [done|]. cbn [ret].
  destruct (ws `mod` gs =? 0) eqn:Hm; [|done]. cbn.
  assert (gs < 0) as Hneg by lia.
  assert (ws = gs * (ws `div` gs)) as Hex by (apply Z.div_exact; lia).
  assert (ws `div` gs < 0) as Hn by nia.
  unfold py_floordiv. rewrite H0. cbn.
  unfold simple_group_split, bind, np_split, bind, py_mod.
  destruct (ws `div` gs =? 0) eqn:H1; [lia|]. cbn [ret].
  unfold np_arange. rewrite length_fmap, length_seq, Z2Nat.id by lia.
  assert (ws `mod` (ws `div` gs) = 0) as ->.
  { rewrite Hex at 1. apply Z_mod_mult. }
  cbn. destruct (ws `div` gs <=? 0) eqn:H2; [done | lia].
Qed.

(** X15. [simple_group_split] on faulty input.  Zero groups raise
    [ZeroDivisionError]; a number of groups that does not divide the
    world raises [ValueError] - the uneven division of the docstring -
    and in both cases no group has been created.  A rank beyond the world
    is noticed last: every group has been created when [IndexError] is
    raised. *)
Theorem simple_group_split_on_faulty_input (ws rank ng : Z) (p : Process) :
  0 ≤ ws →
  (ng = 0 → simple_group_split ws rank ng p = (Raise ZeroDivisionError, p))
  ∧ (ng ≠ 0 → ws `mod` ng ≠ 0 →
     simple_group_split ws rank ng p = (Raise ValueError, p))
  ∧ (0 < ng → 0 < ws → ws `mod` ng = 0 → ws ≤ rank →
     let r := simple_group_split ws rank ng p in
     r.1 = Raise IndexError
     ∧ calls r.2
       = calls p ++ ((λ k, new_group (block (ws `div` ng) k)) <$> py_range ng)).
Proof.
  intros Hws. split_and!.
  - intros ->. done.
  - intros Hng Hmod. unfold simple_group_split, bind, np_split, bind, py_mod.
    destruct (ng =? 0) eqn:H0; [lia|]. cbn [ret].
    unfold np_arange. rewrite length_fmap, length_seq, Z2Nat.id by lia.
    destruct (ws `mod` ng =? 0) eqn:Hm; [lia|]. done.
  - intros Hng Hpos Hmod Hrank.
    destruct (even_split ws ng) as (Hgs & Hw & Hn & Hg); [lia..|].
    set (gs := ws `div` ng) in *. cbn zeta.
    pose proof (simple_group_split_groups (Z.to_nat ng) (Z.to_nat gs) rank p
                  ltac:(lia) ltac:(lia)) as Hrun.
    rewrite <- Hw, <- Hn, <- Hg in Hrun. rewrite Hrun. clear Hrun.
    assert (ws = ng * gs) as Hex by (apply Z.div_exact; lia).
    assert (ng ≤ rank `div` gs) as Hk
      by (apply Z.div_le_lower_bound; lia).
    unfold py_getitem. rewrite length_fmap, length_seq.
    clearbody gs.
    assert ((rank `div` gs <? 0) = false) as H0 by (apply Z.ltb_ge; lia).
    assert ((Z.of_nat (Z.to_nat ng) <=? rank `div` gs) = true) as H2
      by (apply Z.leb_le; lia).
    rewrite H0. cbn [orb]. rewrite H0, H2.
    cbn. split; [done|]. f_equal. unfold py_range.
    rewrite <- list_fmap_compose. apply list_fmap_ext. intros i k _. cbn.
    by rewrite Hg.
Qed.

End Groups.

Section Bootstrap.
Import Helper.
Local Open Scope helper_scope.
Context `{Runtime}.

Lemma environ_get2_endpoint (addr port : option string) (p : Process)
    (k1 k2 : string) :
  k1 ≠ "MASTER_ADDR" → k1 ≠ "MASTER_PORT" →
  k2 ≠ "MASTER_ADDR" → k2 ≠ "MASTER_PORT" →
  environ_get2 k1 k2 (endpoint addr port p)
  = (Return (match environ p !! k1 with
             | Some v => Some v
             | None => environ p !! k2
             end), endpoint addr port p).
Proof.
  intros. unfold environ_get2, bind, gets, ret, endpoint. cbn.
  by rewrite !lookup_insert_ne by done.
Qed.

(** [dist_init] computes its closed form. *)
Lemma dist_init_step (backend : string) (addr port : option string)
    (rank world_size : option Z) (timeout : Z) (p : Process) :
  dist_init backend addr port rank world_size timeout p
  = dist_init_result backend addr port rank world_size timeout p.
Proof.
  unfold dist_init, dist_init_result, resolved, initialised, endpoint.
  unfold py_assert, environ_set, environ_get2, int_of, py_mod, get_rank,
    get_world_size.
  unfold bind, gets, modify, ret, raise.
  destruct (bool_decide (backend ∈ ["nccl"; "gloo"])); [|done].
  cbn [environ set_environ calls]. rewrite lookup_insert_ne by done.
  destruct rank as [r|], world_size as [w|];
    cbn [environ set_environ calls]; rewrite ?lookup_insert_ne by done.
  - by destruct (cuda_device_count _ =? 0).
  - destruct (environ p !! "SLURM_NTASKS") as [s|];
      [|destruct (environ p !! "WORLD_SIZE") as [s|]; [|done]];
      (destruct (py_int s); [|done]); by destruct (cuda_device_count _ =? 0).
  - destruct (environ p !! "SLURM_LOCALID") as [s|];
      [|destruct (environ p !! "RANK") as [s|]; [|done]];
      (destruct (py_int s); [|done]); by destruct (cuda_device_count _ =? 0).
  - destruct (environ p !! "SLURM_LOCALID") as [s|];
      [|destruct (environ p !! "RANK") as [s|]; [|done]];
      (destruct (py_int s); [|done]);
      cbn [environ set_environ calls]; rewrite ?lookup_insert_ne by done;
      (destruct (environ p !! "SLURM_NTASKS") as [s'|];
       [|destruct (environ p !! "WORLD_SIZE") as [s'|]; [|done]]);
      (destruct (py_int s'); [|done]); by destruct (cuda_device_count _ =? 0).
Qed.

Lemma dist_init_environ (backend : string) (addr port : option string)
    (rank world_size : option Z) (timeout : Z) (p : Process) :
  bool_decide (backend ∈ ["nccl"; "gloo"]) = true →
  environ (dist_init backend addr port rank world_size timeout p).2
  = environ (endpoint addr port p).
Proof.
  intros Hb. rewrite dist_init_step. unfold dist_init_result. rewrite Hb.
  destruct (resolved rank _ _ _) as [r|e]; [|done].
  destruct (resolved world_size _ _ _) as [w|e]; [|done].
  by destruct (cuda_device_count _ =? 0).
Qed.

(** X16. [dist_init] fixes the address and the port of the master in the
    environment before anything else can fail: whatever the outcome of
    the call, [MASTER_ADDR] is the argument if one is given and is not
    empty, else the value the variable had, else [localhost], and
    likewise [MASTER_PORT] with [10314]; no other variable changes, and a
    later call without address and port finds the same endpoint.  A
    backend other than [nccl] and [gloo] fails the assertion with the
    process untouched. *)
Theorem dist_init_sets_the_master_endpoint (backend : string)
    (addr port : option string) (rank world_size : option Z) (timeout : Z)
    (p : Process) :
  let r := dist_init backend addr port rank world_size timeout p in
  if bool_decide (backend ∈ ["nccl"; "gloo"]) then
    environ r.2 !! "MASTER_ADDR"
    = Some (py_or addr (default "localhost" (environ p !! "MASTER_ADDR")))
    ∧ environ r.2 !! "MASTER_PORT"
      = Some (py_or port (default "10314" (environ p !! "MASTER_PORT")))
    ∧ (∀ k, k ≠ "MASTER_ADDR" → k ≠ "MASTER_PORT" →
         environ r.2 !! k = environ p !! k)
    ∧ (∀ rank' world_size' timeout',
         environ (dist_init backend None None rank' world_size' timeout' r.2).2
         = environ r.2)
  else r = (Raise AssertionError, p).
Proof.
  intros r. subst r.
  destruct (bool_decide (backend ∈ ["nccl"; "gloo"])) eqn:Hb.
  - rewrite dist_init_environ by done. split_and!.
    + cbn. by rewrite lookup_insert_ne, lookup_insert_eq.
    + cbn. by rewrite lookup_insert_eq.
    + intros k Ha Hp. cbn. by rewrite !lookup_insert_ne.
    + intros rank' world_size' timeout'.
      rewrite dist_init_environ by done. unfold endpoint at 1.
      rewrite dist_init_environ by done. cbn.
      rewrite lookup_insert_eq, lookup_insert_ne, lookup_insert_eq by done.
      cbn. rewrite (insert_id _ "MASTER_ADDR");
        [|by rewrite lookup_insert_ne, lookup_insert_eq].
      rewrite insert_id; [done|]. by rewrite lookup_insert_eq.
  - rewrite dist_init_step. unfold dist_init_result. by rewrite Hb.
Qed.

(** X17. What a call of [dist_init] with a supported backend can come to.
    It returns what torch reports as rank and world size, after exactly
    two calls: [init_process_group] and [set_device] with the rank modulo
    the number of GPUs, a valid device index.  It raises
    [ZeroDivisionError] when the machine has no GPU, and then the process
    group has already been initialised.  It raises [RuntimeError] when
    the rank, or the world size, is neither given nor in the environment,
    and [ValueError] when a variable does not read as an int; in both
    cases torch has not been called.  Nothing else happens. *)
Theorem dist_init_outcomes (backend : string) (addr port : option string)
    (rank world_size : option Z) (timeout : Z) (p : Process) :
  backend ∈ ["nccl"; "gloo"] →
  let r := dist_init backend addr port rank world_size timeout p in
  match r.1 with
  | Return (rk, w) =>
      rk = dist_rank r.2 ∧ w = dist_world_size r.2
      ∧ ∃ rk0 w0,
          let n := cuda_device_count
                     (initialised backend addr port rk0 w0 timeout p) in
          calls r.2 = calls p ++ [init_process_group backend rk0 w0 timeout;
                                  set_device (rk0 `mod` n)]
          ∧ n ≠ 0 ∧ (0 < n → 0 ≤ rk0 `mod` n < n)
  | Raise ZeroDivisionError =>
      ∃ rk0 w0, r.2 = initialised backend addr port rk0 w0 timeout p
                ∧ calls r.2 = calls p ++ [init_process_group backend rk0 w0 timeout]
                ∧ cuda_device_count r.2 = 0
  | Raise RuntimeError =>
      calls r.2 = calls p
      ∧ ((rank = None ∧ environ p !! "SLURM_LOCALID" = None
          ∧ environ p !! "RANK" = None)
         ∨ (world_size = None ∧ environ p !! "SLURM_NTASKS" = None
            ∧ environ p !! "WORLD_SIZE" = None))
  | Raise ValueError => calls r.2 = calls p
  | Raise _ => False
  end.
Proof.
  intros Hb r. apply (bool_decide_eq_true_2 _) in Hb. subst r.
  rewrite dist_init_step. unfold dist_init_result. rewrite Hb.
  assert (∀ x k1 k2,
            match resolved x (environ p) k1 k2 with
            | Return _ | Raise ValueError => True
            | Raise RuntimeError =>
                x = None ∧ environ p !! k1 = None ∧ environ p !! k2 = None
            | Raise _ => False
            end) as Hres.
  { intros [n|] k1 k2; [done|]. unfold resolved.
    destruct (environ p !! k1) as [s|]; [by destruct (py_int s)|].
    destruct (environ p !! k2) as [s|]; [by destruct (py_int s)|done]. }
  pose proof (Hres rank "SLURM_LOCALID" "RANK") as Hr.
  pose proof (Hres world_size "SLURM_NTASKS" "WORLD_SIZE") as Hw.
  destruct (resolved rank _ _ _) as [rk0|[]]; try done; cbn; [|by auto].
  destruct (resolved world_size _ _ _) as [w0|[]]; try done; cbn; [|by auto].
  destruct (cuda_device_count _ =? 0) eqn:Hn; cbn.
  - exists rk0, w0. split_and!; [done | done | lia].
  - split_and!; try done. exists rk0, w0. cbn.
    split_and!; [by rewrite <- app_assoc | lia |].
    intros Hpos. by apply Z.mod_pos_bound.
Qed.

(** X18. Where [dist_init] takes the rank and the world size from.  Given
    as arguments, they are used whatever the environment holds.  Left
    out, they are read from [SLURM_LOCALID] and [SLURM_NTASKS] when these
    are set, whatever [RANK] and [WORLD_SIZE] say, and from [RANK] and
    [WORLD_SIZE] otherwise.  With neither variable for the rank, the call
    raises [RuntimeError] with the endpoint written and nothing else
    done. *)
Theorem dist_init_prefers_arguments_then_slurm (backend : string)
    (addr port : option string) (timeout : Z) (p : Process) (rk w : Z) :
  backend ∈ ["nccl"; "gloo"] →
  let started (r : outcome (Z * Z) * Process) :=
    ∃ rest, calls r.2
            = calls p ++ init_process_group backend rk w timeout :: rest in
  started (dist_init backend addr port (Some rk) (Some w) timeout p)
  ∧ (∀ s s',
       environ p !! "SLURM_LOCALID" = Some s → py_int s = Some rk →
       environ p !! "SLURM_NTASKS" = Some s' → py_int s' = Some w →
       started (dist_init backend addr port None None timeout p))
  ∧ (∀ s s',
       environ p !! "SLURM_LOCALID" = None →
       environ p !! "RANK" = Some s → py_int s = Some rk →
       environ p !! "SLURM_NTASKS" = None →
       environ p !! "WORLD_SIZE" = Some s' → py_int s' = Some w →
       started (dist_init backend addr port None None timeout p))
  ∧ (∀ world_size,
       environ p !! "SLURM_LOCALID" = None → environ p !! "RANK" = None →
       dist_init backend addr port None world_size timeout p
       = (Raise RuntimeError, endpoint addr port p)).
Proof.
  intros Hb started. apply (bool_decide_eq_true_2 _) in Hb.
  assert (∀ rank world_size,
            resolved rank (environ p) "SLURM_LOCALID" "RANK" = Return rk →
            resolved world_size (environ p) "SLURM_NTASKS" "WORLD_SIZE" = Return w →
            started (dist_init backend addr port rank world_size timeout p))
    as Hstart.
  { intros rank world_size Hr Hw. unfold started.
    rewrite dist_init_step. unfold dist_init_result. rewrite Hb, Hr, Hw.
    destruct (cuda_device_count _ =? 0); cbn; rewrite <- ?app_assoc;
      eexists; done. }
  split_and!.
  - by apply Hstart.
  - intros s s' Hs Hrk Hs' Hw. apply Hstart; unfold resolved.
    + by rewrite Hs, Hrk.
    + by rewrite Hs', Hw.
  - intros s s' Hl Hs Hrk Hn Hs' Hw. apply Hstart; unfold resolved.
    + by rewrite Hl, Hs, Hrk.
    + by rewrite Hn, Hs', Hw.
  - intros world_size Hl Hr. rewrite dist_init_step. unfold dist_init_result.
    rewrite Hb. unfold resolved at 1. by rewrite Hl, Hr.
Qed.

(** X19. [dist_mode(func)] and [with DDPContext(): func()] do the same:
    [dist_init()] with its defaults, then [func], whose result is
    dropped.  If [dist_init()] raises, [func] is not run; in particular
    without [SLURM_LOCALID] and [RANK] in the environment the call raises
    [RuntimeError] and leaves nothing but the endpoint written. *)
Theorem dist_mode_runs_inside_dist_init {A} (func : M A) (p : Process) :
  let i := dist_init_default p in
  dist_mode func p = with_DDPContext (func ;; ret tt) p
  ∧ (∀ e, i.1 = Raise e → dist_mode func p = (Raise e, i.2))
  ∧ (∀ x, i.1 = Return x →
       dist_mode func p
       = (match (func i.2).1 with Return _ => Return tt | Raise e => Raise e end,
          (func i.2).2))
  ∧ (environ p !! "SLURM_LOCALID" = None → environ p !! "RANK" = None →
     dist_mode func p = (Raise RuntimeError, endpoint None None p)).
Proof.
  intros i.
  assert (∀ e, i.1 = Raise e → dist_mode func p = (Raise e, i.2)) as Hraise.
  { intros e He. unfold dist_mode, bind. fold i.
    destruct i as [[x|e'] p']; cbn in *; by simplify_eq. }
  split_and!.
  - unfold dist_mode, with_DDPContext, DDPContext_enter, DDPContext_exit,
      dist_finalize, bind, ret, raise. fold i.
    destruct i as [[x|e] p']; [|done].
    by destruct (func p') as [[y|e] p''].
  - exact Hraise.
  - intros x Hx. unfold dist_mode, dist_finalize, bind, ret. fold i.
    destruct i as [[y|e] p']; [|done]. cbn.
    by destruct (func p') as [[z|e] p''].
  - intros Hl Hr. 
    assert (i = (Raise RuntimeError, endpoint None None p)) as Hi.
    { unfold i, dist_init_default. rewrite dist_init_step.
      unfold dist_init_result, resolved. cbn. by rewrite Hl, Hr. }
    rewrite (Hraise RuntimeError); by rewrite Hi.
Qed.

End Bootstrap.

Section Configuration.
Import Helper.
Local Open Scope helper_scope.
Context `{Runtime}.

Lemma Qceiling_div (v w : Z) :
  0 < w → Qceiling (inject_Z v / inject_Z w) = - ((- v) `div` w).
Proof.
  intros Hw. unfold Qceiling. f_equal.
  rewrite Zdiv_Qdiv. apply Qfloor_comp.
  rewrite inject_Z_opp. field.
  intros Hz. apply (Qlt_irrefl 0). rewrite <- Hz at 2.
  rewrite <- (Zlt_Qlt 0). exact Hw.
Qed.

(** The share of one process is the least [s] with [w * s >= v]. *)
Lemma ceiling_share (v w : Z) :
  0 < w →
  let s := Qceiling (inject_Z v / inject_Z w) in
  w * (s - 1) < v ≤ w * s.
Proof.
  intros Hw s. subst s. rewrite Qceiling_div by done.
  pose proof (Z.mul_div_le (- v) w Hw).
  pose proof (Z.mul_succ_div_gt (- v) w Hw). lia.
Qed.

Lemma scaled_lookup (w : Z) (k : string) (d : gmap string Z) :
  scaled w k d !! k = (λ v, Qceiling (inject_Z v / inject_Z w)) <$> d !! k.
Proof.
  unfold scaled. destruct (d !! k) as [v|] eqn:Hk; cbn.
  - by rewrite lookup_insert_eq.
  - done.
Qed.

Lemma scaled_lookup_ne (w : Z) (k k' : string) (d : gmap string Z) :
  k ≠ k' → scaled w k d !! k' = d !! k'.
Proof.
  intros Hne. unfold scaled. destruct (d !! k); [|done].
  by rewrite lookup_insert_ne.
Qed.

Lemma scaled_one (k : string) (d : gmap string Z) : scaled 1 k d = d.
Proof.
  unfold scaled. destruct (d !! k) as [v|] eqn:Hk; [|done].
  rewrite Qceiling_div by lia. rewrite Z.div_1_r, Z.opp_involutive.
  by apply insert_id.
Qed.

(** One of the four updates, on a world size that is not zero. *)
Lemma scale_step (w : Z) (k : string) (d : gmap string Z)
    (set : string → Z → MC unit) (s : Config * Process) :
  w ≠ 0 →
  match d !! k with
  | Some v => cbind (ceil_div v w) (λ v', set k v')
  | None => cret tt
  end s
  = match d !! k with
    | Some v => set k (Qceiling (inject_Z v / inject_Z w)) s
    | None => (Return tt, s)
    end.
Proof.
  intros Hw. destruct (d !! k) as [v|]; [|done].
  unfold cbind, ceil_div. by destruct (w =? 0) eqn:H0; [lia|].
Qed.

(** A configuration with its two sub-dicts, in a world that is not
    empty. *)
Lemma to_ddp_config_run (sz l c : gmap string Z) (p : Process) :
  dist_world_size p ≠ 0 →
  let w := dist_world_size p in
  let cfg' :=
    mkConfig (Some (mkPolicy (scaled w "batch_size" sz)
                      (Some (scaled w "batch_size" l))
                      (Some (scaled w "n_episode" (scaled w "n_sample" c))))) in
  to_ddp_config (mkConfig (Some (mkPolicy sz (Some l) (Some c))), p)
  = (Return cfg', (cfg', p)).
Proof.
  intros Hw w cfg'. subst cfg'. unfold to_ddp_config.
  unfold cbind at 1. unfold of_process, get_world_size, gets.
  cbn [fst snd]. fold w.
  unfold cbind at 1. unfold attr_policy at 1. cbn [fst snd policy sizes].
  unfold cbind at 1. rewrite scale_step by done.
  unfold scaled.
  destruct (sz !! "batch_size") as [v1|]; cbn;
    (destruct (l !! "batch_size") as [v2|]; cbn;
     [unfold cbind, ceil_div; destruct (w =? 0) eqn:H0; [lia|]; cbn|]);
    (destruct (c !! "n_sample") as [v3|]; cbn;
     [unfold cbind, ceil_div; rewrite ?H0;
      try (destruct (w =? 0) eqn:H0; [lia|]); cbn|]);
    rewrite ?lookup_insert_ne by done;
    (destruct (c !! "n_episode") as [v4|]; cbn;
     [unfold cbind, ceil_div; rewrite ?H0;
      try (destruct (w =? 0) eqn:H0; [lia|]); cbn|]);
    done.
Qed.

(** X20. [to_ddp_config] on a configuration that has [policy.learn] and
    [policy.collect], with sizes below 2^52 in absolute value (on which
    the binary64 quotient of the code and the exact one of the model
    have the same ceiling), in a world of [w > 0] processes: each of
    [policy.batch_size], [policy.learn.batch_size],
    [policy.collect.n_sample] and [policy.collect.n_episode] that is
    configured becomes the share of one process, the least number that,
    taken by every process, covers the size configured.  A size that is
    not configured stays so, no other entry changes, the object returned
    is the object updated, and in a world of one process nothing changes.
    Without [policy.learn] the call raises [AttributeError] after
    [policy.batch_size] has been updated: the object is left half
    converted.  In a world of zero processes the call raises
    [ZeroDivisionError] as soon as one of the four sizes is configured,
    and the object is as before. *)
Theorem to_ddp_config_shares (sz : gmap string Z) (l c : gmap string Z)
    (p : Process) :
  let w := dist_world_size p in
  let bounded (d : gmap string Z) (k : string) :=
    ∀ v, d !! k = Some v → - 2 ^ 52 < v < 2 ^ 52 in
  let share (d d' : gmap string Z) (k : string) :=
    match d !! k with
    | Some v => ∃ s, d' !! k = Some s ∧ w * (s - 1) < v ≤ w * s
    | None => d' !! k = None
    end in
  let cfg := mkConfig (Some (mkPolicy sz (Some l) (Some c))) in
  (0 < w →
   bounded sz "batch_size" → bounded l "batch_size" →
   bounded c "n_sample" → bounded c "n_episode" →
   ∃ sz' l' c',
     let cfg' := mkConfig (Some (mkPolicy sz' (Some l') (Some c'))) in
     to_ddp_config (cfg, p) = (Return cfg', (cfg', p))
     ∧ share sz sz' "batch_size"
     ∧ share l l' "batch_size"
     ∧ share c c' "n_sample"
     ∧ share c c' "n_episode"
     ∧ (∀ k, k ≠ "batch_size" → sz' !! k = sz !! k ∧ l' !! k = l !! k)
     ∧ (∀ k, k ≠ "n_sample" → k ≠ "n_episode" → c' !! k = c !! k)
     ∧ (w = 1 → cfg' = cfg))
  ∧ (0 < w → bounded sz "batch_size" →
     to_ddp_config (mkConfig (Some (mkPolicy sz None (Some c))), p)
     = (Raise AttributeError,
        (mkConfig (Some (mkPolicy (scaled w "batch_size" sz) None (Some c))),
         p)))
  ∧ (w = 0 →
     to_ddp_config (cfg, p)
     = if bool_decide (sz !! "batch_size" = None
                       ∧ l !! "batch_size" = None
                       ∧ c !! "n_sample" = None
                       ∧ c !! "n_episode" = None)
       then (Return cfg, (cfg, p)) else (Raise ZeroDivisionError, (cfg, p))).
Proof.
  intros w bounded share cfg. split_and!.
  - intros Hw _ _ _ _. eexists _, _, _. cbn zeta.
    split; [apply to_ddp_config_run; fold w; lia|]. fold w.
    assert (∀ d k, share d (scaled w k d) k) as Hshare.
    { intros d k. unfold share. rewrite scaled_lookup.
      destruct (d !! k) as [v|]; [|done]. cbn. eexists. split; [done|].
      by apply ceiling_share. }
    split_and!; try apply Hshare.
    + unfold share. rewrite scaled_lookup_ne by done.
      apply (Hshare c "n_sample").
    + unfold share. rewrite scaled_lookup, scaled_lookup_ne by done.
      destruct (c !! "n_episode") as [v|]; [|done]. cbn.
      eexists. split; [done|]. by apply ceiling_share.
    + intros k Hk. by rewrite !scaled_lookup_ne.
    + intros k Hs He. by rewrite !scaled_lookup_ne.
    + intros ->. by rewrite !scaled_one.
  - intros Hw _. unfold to_ddp_config.
    unfold cbind at 1. unfold of_process, get_world_size, gets.
    cbn [fst snd]. fold w.
    unfold cbind at 1. unfold attr_policy at 1. cbn [fst snd policy sizes].
    unfold cbind at 1. rewrite scale_step by lia. unfold scaled.
    by destruct (sz !! "batch_size").
  - intros Hw. subst cfg. unfold to_ddp_config.
    unfold cbind, of_process, get_world_size, gets, attr_learn, attr_collect,
      attr_policy, ceil_div, cbind, cret, craise.
    cbn [fst snd policy sizes learn collect]. fold w. rewrite Hw.
    cbn [Z.eqb].
    case_bool_decide as Hd.
    + destruct Hd as (Hp & Hl & Hs & He). rewrite Hp. cbn.
      rewrite Hl. cbn. rewrite Hs. cbn. by rewrite He.
    + destruct (sz !! "batch_size"); [done|]. cbn.
      destruct (l !! "batch_size"); [done|]. cbn.
      destruct (c !! "n_sample"); [done|]. cbn.
      destruct (c !! "n_episode"); [done|]. by destruct Hd.
Qed.

End Configuration.

(** ** Concrete processes *)

Section HelperRuns.
Import Helper.
Local Open Scope helper_scope.

(** A world of 8 in 2 groups: rank 5 is in the group of 4, 5, 6, 7. *)
Lemma simple_group_split_partitions_the_world_witness :
  let r := simple_group_split 8 5 2 (mkProcess ∅ []) in
  r.1 = Return (mkGroup [4; 5; 6; 7])
  ∧ calls r.2 = [new_group [0; 1; 2; 3]; new_group [4; 5; 6; 7]].
Proof.
  destruct (simple_group_split_partitions_the_world 8 5 2 (mkProcess ∅ [])
              ltac:(lia) eq_refl ltac:(lia))
    as (Hr & _ & _ & _ & Hc & _).
  split; [exact Hr | exact Hc].
Defined.

(** Rank 5 of 8 asks for groups of 4. *)
Lemma get_group_is_the_block_of_the_rank_witness :
  (get_group (H:=node 5 8 4) (Some 4) (mkProcess ∅ [])).1
  = Return (mkGroup [4; 5; 6; 7]).
Proof.
  exact (proj1 (get_group_is_the_block_of_the_rank (H:=node 5 8 4) 4
                  (mkProcess ∅ []) ltac:(lia) eq_refl ltac:(cbn; lia))).
Defined.

(** Groups of 3 in a world of 8. *)
Lemma get_group_rejects_uneven_sizes_witness :
  get_group (H:=node 5 8 4) (Some 3) (mkProcess ∅ [])
  = (Raise AssertionError, mkProcess ∅ []).
Proof.
  apply (get_group_rejects_uneven_sizes (H:=node 5 8 4) 3 (mkProcess ∅ [])).
  - cbn. lia.
  - cbn. intros [_ Hm]. discriminate Hm.
Defined.

(** A world of 8 in 3 groups. *)
Lemma simple_group_split_on_faulty_input_witness :
  simple_group_split 8 5 3 (mkProcess ∅ []) = (Raise ValueError, mkProcess ∅ []).
Proof.
  destruct (simple_group_split_on_faulty_input 8 5 3 (mkProcess ∅ [])
              ltac:(lia)) as (_ & Hv & _).
  apply Hv; [lia | discriminate].
Defined.

(** Rank 5 of 8 on a machine with 4 GPUs: two calls to torch, the
    second with a device among the four. *)
Lemma dist_init_outcomes_witness :
  let p := mkProcess ∅ [] in
  let r := dist_init (H:=node 5 8 4) "gloo" None None (Some 5) (Some 8) 60000 p in
  r.1 = Return (5, 8)
  ∧ ∃ rk0 w0,
      calls r.2 = calls p ++ [init_process_group "gloo" rk0 w0 60000;
                              set_device (rk0 `mod` 4)]
      ∧ 0 ≤ rk0 `mod` 4 < 4.
Proof.
  intros p r.
  pose proof (dist_init_outcomes (H:=node 5 8 4) "gloo" None None (Some 5)
                (Some 8) 60000 p
                ltac:(apply list_elem_of_further, list_elem_of_here)) as Ho.
  cbv zeta in Ho. fold r in Ho.
  assert (r.1 = Return (5, 8)) as Hr by (vm_compute; reflexivity).
  rewrite Hr in Ho. destruct Ho as (_ & _ & rk0 & w0 & Hc & _ & Hd).
  split; [done|]. exists rk0, w0. split; [exact Hc|]. apply Hd. cbn. lia.
Defined.

(** Under SLURM the variables of torchrun are not looked at. *)
Lemma dist_init_prefers_arguments_then_slurm_witness :
  let env : gmap string string :=
    <["SLURM_LOCALID" := "3"]> (<["SLURM_NTASKS" := "8"]> (<["RANK" := "7"]> ∅)) in
  ∃ rest,
    calls (dist_init (H:=node 3 8 4) "nccl" None None None None 60000
             (mkProcess env [])).2
    = [] ++ init_process_group "nccl" 3 8 60000 :: rest.
Proof.
  intros env.
  destruct (dist_init_prefers_arguments_then_slurm (H:=node 3 8 4) "nccl"
              None None 60000 (mkProcess env []) 3 8
              ltac:(apply list_elem_of_here))
    as (_ & Hslurm & _).
  apply (Hslurm "3" "8"); vm_compute; reflexivity.
Defined.

(** A batch of 64, a learner batch of 10 and 100 samples in a world of
    8 processes: 8, 2 and 13 for each. *)
Lemma to_ddp_config_shares_witness :
  let sz : gmap string Z := {[ "batch_size" := 64 ]} in
  let l : gmap string Z := {[ "batch_size" := 10 ]} in
  let c : gmap string Z := {[ "n_sample" := 100 ]} in
  ∃ sz' l' c',
    to_ddp_config (H:=node 0 8 4)
      (mkConfig (Some (mkPolicy sz (Some l) (Some c))), mkProcess ∅ [])
    = (Return (mkConfig (Some (mkPolicy sz' (Some l') (Some c')))),
       (mkConfig (Some (mkPolicy sz' (Some l') (Some c'))), mkProcess ∅ []))
    ∧ sz' !! "batch_size" = Some 8
    ∧ l' !! "batch_size" = Some 2
    ∧ c' !! "n_sample" = Some 13
    ∧ c' !! "n_episode" = None.
Proof.
  intros sz l c.
  destruct (to_ddp_config_shares (H:=node 0 8 4) sz l c (mkProcess ∅ []))
    as (Hshares & _).
  destruct Hshares as (sz' & l' & c' & Hrun & Hsz & Hl & Hc & He & _).
  - cbn. lia.
  - intros v Hv. vm_compute in Hv. injection Hv as <-. lia.
  - intros v Hv. vm_compute in Hv. injection Hv as <-. lia.
  - intros v Hv. vm_compute in Hv. injection Hv as <-. lia.
  - intros v Hv. vm_compute in Hv. discriminate Hv.
  - exists sz', l', c'. split; [exact Hrun|].
    change (sz !! "batch_size") with (Some 64) in Hsz.
    change (l !! "batch_size") with (Some 10) in Hl.
    change (c !! "n_sample") with (Some 100) in Hc.
    change (c !! "n_episode") with (@None Z) in He.
    cbn in Hsz, Hl, Hc.
    destruct Hsz as (s1 & -> & Hs1), Hl as (s2 & -> & Hs2),
      Hc as (s3 & -> & Hs3).
    split_and!; [f_equal; lia | f_equal; lia | f_equal; lia | exact He].
Defined.

End HelperRuns.

